(** * Quantum Inspire backend for Qiskit: a shallow embedding of [backend_qx.py]

    The development follows [src/quantuminspire/qiskit/backend_qx.py]:
    the translation of an experiment into cQASM text, the validation of a
    submitted job, the collection of the measurement map and the conversion
    of a provider result into Qiskit histograms and memory data.

    Conventions of the embedding.
    - A Python exception is a value of [exception]; a call that can raise
      returns a [result].
    - A Python [dict] is an association list in insertion order (iteration
      order of the dictionary), a Python [list] is a [list].
    - Python integers are [Z] (or [N] where the value is a measured register,
      which is never negative); indices follow Python's rules, negative
      indices included.
    - Python's [float] is [float], the binary64 numbers of IEEE 754, with
      the addition and the comparison of the processor; a decimal constant
      stands for the nearest binary64 number, as in Python.
    - The random generator of numpy is an explicit state.
    - The order in which an object of Qiskit lists its attributes is an
      input of the model. *)

From Stdlib Require Import ZArith NArith List String Ascii Bool Lia Floats.
From Stdlib Require Import Sorted Permutation SetoidList.
From Stdlib Require Import DecimalString HexadecimalString DecimalZ HexadecimalN.
Import ListNotations.

#[local] Open Scope string_scope.
#[local] Open Scope Z_scope.
#[local] Set Warnings "-inexact-float".

(** ** Exceptions and results *)

Inductive exception : Type :=
| QisKitBackendError (msg : string)
| ApiError (msg : string)
| IndexError
| ValueError
| KeyError (key : string)
| AttributeError (attribute : string).

Inductive result (A : Type) : Type :=
| Ok (a : A)
| Raise (e : exception).

Arguments Ok {A} a.
Arguments Raise {A} e.

Definition bind {A B : Type} (r : result A) (k : A -> result B) : result B :=
  match r with
  | Ok a => k a
  | Raise e => Raise e
  end.

Notation "x <- r ;; k" := (bind r (fun x => k))
  (at level 61, r at next level, right associativity).
Notation "' p <- r ;; k" := (bind r (fun p => k))
  (at level 61, p pattern, r at next level, right associativity).

(** A loop [for x in xs: acc = body(acc, x)] whose body can raise. *)
Fixpoint for_each {A S : Type} (body : S -> A -> result S) (xs : list A) (acc : S)
  : result S :=
  match xs with
  | [] => Ok acc
  | x :: xs' => acc' <- body acc x ;; for_each body xs' acc'
  end.

(** A list comprehension [[f(x) for x in xs]] whose element can raise. *)
Fixpoint comprehension {A B : Type} (f : A -> result B) (xs : list A) : result (list B) :=
  match xs with
  | [] => Ok []
  | x :: xs' => y <- f x ;; ys <- comprehension f xs' ;; Ok (y :: ys)
  end.

(** ** Python primitives used by the backend *)

Definition nl : string := String "010"%char EmptyString.

(** [l[i]] on a Python sequence: a negative index counts from the end. *)
Definition py_getitem {A : Type} (l : list A) (i : Z) : result A :=
  let len := Z.of_nat (List.length l) in
  let j := if i <? 0 then i + len else i in
  if (0 <=? j) && (j <? len)
  then match nth_error l (Z.to_nat j) with
       | Some x => Ok x
       | None => Raise IndexError
       end
  else Raise IndexError.

Fixpoint replace_nth {A : Type} (l : list A) (n : nat) (x : A) : list A :=
  match l, n with
  | [], _ => []
  | _ :: t, O => x :: t
  | h :: t, S n' => h :: replace_nth t n' x
  end.

(** [l[i] = x] on a Python list. *)
Definition py_setitem {A : Type} (l : list A) (i : Z) (x : A) : result (list A) :=
  let len := Z.of_nat (List.length l) in
  let j := if i <? 0 then i + len else i in
  if (0 <=? j) && (j <? len)
  then Ok (replace_nth l (Z.to_nat j) x)
  else Raise IndexError.

(** The binary digits of a positive number, most significant first. *)
Fixpoint bits_of_pos (p : positive) (acc : list ascii) : list ascii :=
  match p with
  | xH => "1"%char :: acc
  | xO p' => bits_of_pos p' ("0"%char :: acc)
  | xI p' => bits_of_pos p' ("1"%char :: acc)
  end.

(** ['{0:b}'.format(n)] for [n >= 0]. *)
Definition format_b (n : N) : list ascii :=
  match n with
  | N0 => ["0"%char]
  | Npos p => bits_of_pos p []
  end.

(** ['{0:0{1}b}'.format(n, width)]: zero padded on the left up to [width];
    a number that needs more digits keeps them all. *)
Definition format_0b (n : N) (width : nat) : list ascii :=
  let digits := format_b n in
  (repeat "0"%char (width - List.length digits) ++ digits)%list.

(** [int(s, 2)] on a string of binary digits.  The strings built by the
    backend hold the characters 0 and 1 only; the empty string and any other
    character raise [ValueError]. *)
Fixpoint int_base2_from (acc : N) (s : list ascii) : result N :=
  match s with
  | [] => Ok acc
  | c :: s' =>
      if Ascii.eqb c "0" then int_base2_from (2 * acc)%N s'
      else if Ascii.eqb c "1" then int_base2_from (2 * acc + 1)%N s'
      else Raise ValueError
  end.

Definition int_base2 (s : list ascii) : result N :=
  match s with
  | [] => Raise ValueError
  | _ => int_base2_from 0%N s
  end.

(** [hex(n)] for [n >= 0]: the prefix 0x and lower case digits. *)
Definition hex (n : N) : string :=
  "0x" ++ HexadecimalString.NilZero.string_of_uint (N.to_hex_uint n).

(** [int(s, 16)] on the strings the backend sorts by: an optional prefix 0x
    and at least one lower case hexadecimal digit; anything else raises
    [ValueError]. *)
Definition int_base16 (s : string) : result N :=
  let digits :=
    match s with
    | String "0" (String "x" rest) => rest
    | _ => s
    end in
  match HexadecimalString.NilZero.uint_of_string digits with
  | Some d => Ok (N.of_hex_uint d)
  | None => Raise ValueError
  end.

(** ['%d' % n]. *)
Definition format_d (n : Z) : string :=
  DecimalString.NilZero.string_of_int (Z.to_int n).

(** ** The measurement map and the projection on classical bits *)

(** The dictionary built by [_collect_measurements]: the list of pairs
    (position in the qubit string, position in the classical string) and the
    number of classical bits. *)
Record Measurements : Type := {
  measurements : list (Z * Z);
  number_of_clbits : Z
}.

(** [__qubit_to_classical_hex]: the qubit register as a binary string of at
    least [number_of_qubits] digits, each measured position copied into a
    string of [number_of_clbits] zeros, and the result read back in base 2
    and printed in base 16. *)
Definition __qubit_to_classical_hex
  (qubit_register : N) (m : Measurements) (number_of_qubits : nat) : result string :=
  let qubit_state := format_0b qubit_register number_of_qubits in
  let classical_state := repeat "0"%char (Z.to_nat (number_of_clbits m)) in
  classical_state <-
    for_each (fun cs '(q, c) => bit <- py_getitem qubit_state q ;; py_setitem cs c bit)
             (measurements m) classical_state ;;
  value <- int_base2 classical_state ;;
  Ok (hex value).

(** ** Dictionaries in insertion order *)

Fixpoint dict_get {V : Type} (d : list (string * V)) (k : string) : option V :=
  match d with
  | [] => None
  | (k', v) :: d' => if String.eqb k k' then Some v else dict_get d' k
  end.

(** [d[k] = v]: an existing key keeps its place, a new key goes last. *)
Fixpoint dict_set {V : Type} (d : list (string * V)) (k : string) (v : V)
  : list (string * V) :=
  match d with
  | [] => [(k, v)]
  | (k', v') :: d' =>
      if String.eqb k k' then (k', v) :: d' else (k', v') :: dict_set d' k v
  end.

(** [d[k]] on a [defaultdict(lambda: 0)] that is about to be assigned. *)
Definition defaultdict_get {V : Type} (zero : V) (d : list (string * V)) (k : string) : V :=
  match dict_get d k with
  | Some v => v
  | None => zero
  end.

(** [Counter(xs)]: the number of occurrences of each element, in order of
    first occurrence. *)
Definition Counter (xs : list string) : list (string * Z) :=
  fold_left (fun d x => dict_set d x (defaultdict_get 0 d x + 1)) xs [].

(** ** [sorted(items, key=...)]

    Python computes the key of every item first, then sorts the items by
    their keys with a stable sort. *)

Fixpoint insert_by_key {A : Type} (k : N) (x : A) (l : list (N * A)) : list (N * A) :=
  match l with
  | [] => [(k, x)]
  | (k', y) :: t =>
      if (k <=? k')%N then (k, x) :: (k', y) :: t else (k', y) :: insert_by_key k x t
  end.

Definition sort_keyed {A : Type} (l : list (N * A)) : list (N * A) :=
  fold_right (fun kx acc => insert_by_key (fst kx) (snd kx) acc) [] l.

Definition sorted_by_key {A : Type} (key : A -> result N) (l : list A) : result (list A) :=
  keyed <- comprehension (fun x => k <- key x ;; Ok (k, x)) l ;;
  Ok (map snd (sort_keyed keyed)).

(** The key of both sorts of the backend: [lambda kv: int(kv[0], 16)]. *)
Definition hex_key {V : Type} (kv : string * V) : result N := int_base16 (fst kv).

(** ** Provider results *)

(** The result dictionary of the Quantum Inspire API, as far as the backend
    reads it.  [histogram] is [None] when the field is missing. *)
Record Result : Type := {
  result_id : Z;
  histogram : option (list (N * float));
  number_of_qubits : nat;
  raw_text : option string;
  execution_time_in_seconds : float
}.

(** [result['histogram']] *)
Definition getitem_histogram (res : Result) : result (list (N * float)) :=
  match histogram res with
  | Some h => Ok h
  | None => Raise (KeyError "histogram")
  end.

(** The body of the loop of [__convert_histogram]: the probability of a
    register is added to the entry of its classical state.  The dictionary is
    a [defaultdict(lambda: 0)]: the first probability of a key is added to the
    integer 0, which Python converts to the float 0.0. *)
Definition add_probability (m : Measurements) (number_of_qubits : nat)
  (output_histogram_probabilities : list (string * float)) (entry : N * float)
  : result (list (string * float)) :=
  let '(qubit_register, probability) := entry in
  classical_state_hex <- __qubit_to_classical_hex qubit_register m number_of_qubits ;;
  Ok (dict_set output_histogram_probabilities classical_state_hex
        (defaultdict_get 0 output_histogram_probabilities classical_state_hex
         + probability)%float).

(** ** [Obj.from_dict]

    Both histograms are returned as [Obj.from_dict(OrderedDict(sorted(...)))].
    [Obj] is a class of Qiskit: [from_dict] builds an object with one
    attribute per key of the dictionary, each with the value of its key.  The
    order in which the object lists these attributes is not the order of the
    dictionary: it depends on how the strings of the keys are hashed.  That
    order is an input of the model: any rearrangement of the items. *)
Record AttributeOrder : Type := {
  attribute_order : forall V : Type, list (string * V) -> list (string * V);
  attribute_order_perm :
    forall (V : Type) (d : list (string * V)), Permutation d (attribute_order V d)
}.

Definition Obj_from_dict {V : Type} (order : AttributeOrder) (d : list (string * V))
  : list (string * V) :=
  attribute_order order V d.

(** [__convert_histogram] *)
Definition __convert_histogram (order : AttributeOrder) (res : Result) (m : Measurements)
  : result (list (string * float)) :=
  let number_of_qubits := number_of_qubits res in
  state_probability <- getitem_histogram res ;;
  output_histogram_probabilities <-
    for_each (add_probability m number_of_qubits) state_probability [] ;;
  full_state_histogram_obj <- sorted_by_key hex_key output_histogram_probabilities ;;
  Ok (Obj_from_dict order full_state_histogram_obj).

(** ** The random generator *)

(** The state of [np.random]: the values it will return and how many of
    them have been drawn. *)
Record RandomState : Type := {
  draws : nat -> float;
  drawn : nat
}.

(** [np.random.rand()] *)
Definition np_random_rand (rng : RandomState) : float * RandomState :=
  (draws rng (drawn rng), {| draws := draws rng; drawn := S (drawn rng) |}).

(** ** The Quantum Inspire API, read side *)

(** [user_data] of a job, as [json.loads] returns it: what
    [_submit_experiment] stored. *)
Record UserData : Type := {
  ud_name : string;
  ud_memory_slots : Z;
  ud_creg_sizes : list (string * Z);
  ud_measurements : Measurements
}.

Record Job : Type := {
  job_results : string;
  job_user_data : UserData;
  job_name : string;
  job_number_of_shots : Z
}.

Record QuantumInspireApi : Type := {
  get_jobs_from_project : string -> list Job;
  get : string -> Result;
  get_raw_data : string -> list N
}.

(** The single shot of [__convert_result_data]: the loop over the
    probability histogram that stops at the first entry whose cumulative
    probability exceeds the random number.  It returns [histogram_data] and
    [memory_data]. *)
Fixpoint single_shot_loop (prob : float) (m : Measurements) (number_of_qubits : nat)
  (sum_probability : float) (state_probabilities : list (N * float))
  : result (list (string * Z) * list string) :=
  match state_probabilities with
  | [] => Ok ([], [])
  | (qubit_register, probability) :: rest =>
      let sum_probability := (sum_probability + probability)%float in
      if (prob <? sum_probability)%float then
        classical_state_hex <-
          __qubit_to_classical_hex qubit_register m number_of_qubits ;;
        Ok (dict_set [] classical_state_hex 1, [classical_state_hex])
      else single_shot_loop prob m number_of_qubits sum_probability rest
  end.

(** The body of the first loop of [__convert_result_data]: the classical
    state of one shot is appended to [memory_data]. *)
Definition append_shot (m : Measurements) (number_of_qubits : nat)
  (memory_data : list string) (qubit_register : N) : result (list string) :=
  classical_state_hex <- __qubit_to_classical_hex qubit_register m number_of_qubits ;;
  Ok (memory_data ++ [classical_state_hex])%list.

(** [__convert_result_data]; the result carries the state of the random
    generator after the call. *)
Definition __convert_result_data (order : AttributeOrder) (api : QuantumInspireApi)
  (res : Result) (m : Measurements) (rng : RandomState)
  : result (list (string * Z) * list string * RandomState) :=
  let number_of_qubits := number_of_qubits res in
  let raw_data := get_raw_data api (format_d (result_id res)) in
  '(histogram_data, memory_data, rng) <-
    match raw_data with
    | _ :: _ =>
        memory_data <- for_each (append_shot m number_of_qubits) raw_data [] ;;
        let histogram_data :=
          fold_left (fun d '(elem, count) => dict_set d elem count)
                    (Counter memory_data) [] in
        Ok (histogram_data, memory_data, rng)
    | [] =>
        state_probabilities <- getitem_histogram res ;;
        let '(prob, rng) := np_random_rand rng in
        '(histogram_data, memory_data) <-
          single_shot_loop prob m number_of_qubits 0%float state_probabilities ;;
        Ok (histogram_data, memory_data, rng)
    end ;;
  histogram_obj <- sorted_by_key hex_key histogram_data ;;
  Ok (Obj_from_dict order histogram_obj, memory_data, rng).

(** ** Experiment results *)

Record ExperimentResultData : Type := {
  counts : list (string * Z);
  probabilities : list (string * float);
  memory_data_of : list string
}.

Record ResultHeader : Type := {
  rh_name : string;
  rh_memory_slots : Z;
  rh_creg_sizes : list (string * Z)
}.

Record ExperimentResult : Type := {
  er_name : string;
  er_seed : Z;
  er_shots : Z;
  er_data : ExperimentResultData;
  er_status : string;
  er_success : bool;
  er_time_taken : float;
  er_header : ResultHeader
}.

(** ['{}'.format(x)] where [x] is a string or [None]. *)
Definition format_optional (x : option string) : string :=
  match x with
  | Some s => s
  | None => "None"
  end.

Definition no_histogram_message (res : Result) : string :=
  "Result from backend contains no histogram data!" ++ nl ++ format_optional (raw_text res).

(** [not result.get('histogram', {})] *)
Definition histogram_is_empty (res : Result) : bool :=
  match histogram res with
  | None => true
  | Some [] => true
  | Some (_ :: _) => false
  end.

(** The body of the loop of [get_experiment_results], for one result and
    its job. *)
Definition experiment_result (order : AttributeOrder) (api : QuantumInspireApi)
  (res : Result) (job : Job) (rng : RandomState)
  : result (ExperimentResult * RandomState) :=
  if histogram_is_empty res then
    Raise (QisKitBackendError (no_histogram_message res))
  else
    let user_data := job_user_data job in
    let measurements := ud_measurements user_data in
    '(histogram_obj, memory_data, rng) <-
      __convert_result_data order api res measurements rng ;;
    full_state_histogram_obj <- __convert_histogram order res measurements ;;
    let experiment_result_data :=
      {| counts := histogram_obj;
         probabilities := full_state_histogram_obj;
         memory_data_of := memory_data |} in
    let header :=
      {| rh_name := ud_name user_data;
         rh_memory_slots := ud_memory_slots user_data;
         rh_creg_sizes := ud_creg_sizes user_data |} in
    Ok ({| er_name := job_name job;
           er_seed := 42;
           er_shots := job_number_of_shots job;
           er_data := experiment_result_data;
           er_status := "DONE";
           er_success := true;
           er_time_taken := execution_time_in_seconds res;
           er_header := header |}, rng).

(** One turn of the loop of [get_experiment_results]: the result of the
    job is appended to [experiment_results]. *)
Definition append_experiment_result (order : AttributeOrder) (api : QuantumInspireApi)
  (state : list ExperimentResult * RandomState) (result_and_job : Result * Job)
  : result (list ExperimentResult * RandomState) :=
  let '(experiment_results, rng) := state in
  let '(res, job) := result_and_job in
  '(er, rng) <- experiment_result order api res job rng ;;
  Ok (experiment_results ++ [er], rng)%list.

(** [zip(results, jobs)] of [get_experiment_results]. *)
Definition results_and_jobs (api : QuantumInspireApi) (jobs : list Job)
  : list (Result * Job) :=
  let results := map (fun job => get api (job_results job)) jobs in
  combine results jobs.

(** [get_experiment_results]; [job_id] is [qi_job.job_id()]. *)
Definition get_experiment_results (order : AttributeOrder) (api : QuantumInspireApi)
  (job_id : string) (rng : RandomState)
  : result (list ExperimentResult * RandomState) :=
  let jobs := get_jobs_from_project api job_id in
  for_each (append_experiment_result order api) (results_and_jobs api jobs) ([], rng).

(** ** Qobj: the submitted job *)

(** An instruction of an experiment.  [qubits_attribute] is [None] for an
    instruction that has no attribute [qubits], as the [bfunc] instruction
    that computes a classical condition.  [conditional] is the register of
    the classical condition, when the instruction has one. *)
Record Instruction : Type := {
  name : string;
  qubits_attribute : option (list Z);
  memory : list Z;
  params : list float;
  conditional : option Z
}.

(** [instruction.qubits]: [AttributeError] when the instruction has no such
    attribute. *)
Definition getattr_qubits (instruction : Instruction) : result (list Z) :=
  match qubits_attribute instruction with
  | Some instruction_qubits => Ok instruction_qubits
  | None => Raise (AttributeError "qubits")
  end.

(** The qubits an instruction acts on: none when it has no attribute
    [qubits]. *)
Definition qubits (instruction : Instruction) : list Z :=
  match qubits_attribute instruction with
  | Some instruction_qubits => instruction_qubits
  | None => []
  end.

Record ExperimentHeader : Type := {
  n_qubits : Z;
  memory_slots : Z;
  header_name : string;
  creg_sizes : list (string * Z)
}.

Record QobjExperiment : Type := {
  header : ExperimentHeader;
  instructions : list Instruction
}.

Record QobjConfig : Type := {
  shots : Z
}.

Record Qobj : Type := {
  config : QobjConfig;
  experiments : list QobjExperiment
}.

(** ** Validation *)

Definition invalid_shots_message (number_of_shots : Z) : string :=
  "Invalid shots (number_of_shots=" ++ format_d number_of_shots ++ ")".

Definition invalid_clbits_message (number_of_clbits : Z) : string :=
  "Invalid amount of classical bits (" ++ format_d number_of_clbits ++ ")!".

Definition operation_after_measurement : string := "Operation after measurement!".

(** [__validate_number_of_shots] *)
Definition __validate_number_of_shots (job : Qobj) : result unit :=
  let number_of_shots := shots (config job) in
  if number_of_shots <? 1
  then Raise (QisKitBackendError (invalid_shots_message number_of_shots))
  else Ok tt.

(** [__validate_number_of_clbits] *)
Definition __validate_number_of_clbits (experiment : QobjExperiment) : result unit :=
  let number_of_clbits := memory_slots (header experiment) in
  if number_of_clbits <? 1
  then Raise (QisKitBackendError (invalid_clbits_message number_of_clbits))
  else Ok tt.

(** [qubit in measured_qubits] *)
Definition py_in (qubit : Z) (measured_qubits : list Z) : bool :=
  existsb (Z.eqb qubit) measured_qubits.

(** The two nested loops of [__validate_no_gates_after_measure]; the state
    is the list [measured_qubits]. *)
Definition check_instruction (measured_qubits : list Z) (instruction : Instruction)
  : result (list Z) :=
  instruction_qubits <- getattr_qubits instruction ;;
  for_each (fun measured_qubits qubit =>
              if String.eqb (name instruction) "measure"
              then Ok (measured_qubits ++ [qubit])%list
              else if py_in qubit measured_qubits
                   then Raise (QisKitBackendError operation_after_measurement)
                   else Ok measured_qubits)
           instruction_qubits measured_qubits.

(** [__validate_no_gates_after_measure] *)
Definition __validate_no_gates_after_measure (experiment : QobjExperiment) : result unit :=
  _ <- for_each check_instruction (instructions experiment) [] ;;
  Ok tt.

(** [__validate] *)
Definition __validate (job : Qobj) : result unit :=
  _ <- __validate_number_of_shots job ;;
  for_each (fun _ experiment =>
              _ <- __validate_number_of_clbits experiment ;;
              __validate_no_gates_after_measure experiment)
           (experiments job) tt.

(** ** The measurement map *)

(** [range(n)] *)
Definition range (n : Z) : list Z := map Z.of_nat (seq 0 (Z.to_nat n)).

(** The pair stored for one [measure] instruction. *)
Definition measurement_of (number_of_qubits number_of_clbits : Z) (m : Instruction)
  : result (Z * Z) :=
  m_qubits <- getattr_qubits m ;;
  qubit <- py_getitem m_qubits 0 ;;
  clbit <- py_getitem (memory m) 0 ;;
  Ok (number_of_qubits - 1 - qubit, number_of_clbits - 1 - clbit).

Definition is_measure (m : Instruction) : bool := String.eqb (name m) "measure".

(** [_collect_measurements] *)
Definition _collect_measurements (experiment : QobjExperiment) : result Measurements :=
  let header := header experiment in
  let number_of_qubits := n_qubits header in
  let number_of_clbits := memory_slots header in
  let operations := instructions experiment in
  measurements <-
    comprehension (measurement_of number_of_qubits number_of_clbits)
                  (filter is_measure operations) ;;
  let measurements :=
    match measurements with
    | [] => map (fun index => (index, index)) (range number_of_qubits)
    | _ :: _ => measurements
    end in
  Ok {| measurements := measurements; number_of_clbits := number_of_clbits |}.

(** ** The translation to cQASM *)

(** [str.lower()] on the ASCII letters. *)
Definition lower_char (c : ascii) : ascii :=
  let n := nat_of_ascii c in
  if (65 <=? n)%nat && (n <=? 90)%nat then ascii_of_nat (n + 32) else c.

Fixpoint lower (s : string) : string :=
  match s with
  | EmptyString => EmptyString
  | String c s' => String (lower_char c) (lower s')
  end.

(** The class [CircuitToString] of [quantuminspire/qiskit/circuit_parser.py]
    is not among the sources.  The backend creates a parser and calls the
    method of it that is named after the gate of each instruction; the
    methods of the class are a parameter of the model: a table from the name
    of a method ([_h], [_cx], ...) to what the method does with the parser
    and the instruction, which is to raise, to return a line of cQASM or to
    return nothing. *)
Record CircuitToString : Type := {
  parser_state : Type;
  new_parser : parser_state;
  gate_table :
    list (string * (parser_state -> Instruction -> result (parser_state * option string)))
}.

Fixpoint lookup_gate {F : Type} (gate_name : string) (table : list (string * F)) : option F :=
  match table with
  | [] => None
  | (n, f) :: table' => if String.eqb gate_name n then Some f else lookup_gate gate_name table'
  end.

(** [getattr(parser, gate_name)(instruction.as_dict())].  [getattr] is
    called without a default value: a name that is no attribute of the parser
    raises [AttributeError], whether the instruction has a classical
    condition or not. *)
Definition call_gate (P : CircuitToString) (parser : parser_state P)
  (gate_name : string) (instruction : Instruction)
  : result (parser_state P * option string) :=
  match lookup_gate gate_name (gate_table P) with
  | Some gate_function => gate_function parser instruction
  | None => Raise (AttributeError gate_name)
  end.

(** The body of the loop of [_generate_cqasm]; the state is the parser and
    the text written to the stream so far. *)
Definition write_instruction (P : CircuitToString)
  (state : parser_state P * string) (instruction : Instruction)
  : result (parser_state P * string) :=
  let '(parser, stream) := state in
  let gate_name := "_" ++ lower (name instruction) in
  '(parser, line) <- call_gate P parser gate_name instruction ;;
  match line with
  | Some line => Ok (parser, stream ++ line)
  | None => Ok (parser, stream)
  end.

(** [_generate_cqasm] *)
Definition _generate_cqasm (P : CircuitToString) (experiment : QobjExperiment)
  : result string :=
  let parser := new_parser P in
  let number_of_qubits := n_qubits (header experiment) in
  let instructions := instructions experiment in
  let stream := "" in
  let stream := stream ++ ("version 1.0" ++ nl) in
  let stream := stream ++ ("# cQASM generated by QI backend for Qiskit" ++ nl) in
  let stream := stream ++ ("qubits " ++ format_d number_of_qubits ++ nl) in
  '(_, stream) <- for_each (write_instruction P) instructions (parser, stream) ;;
  Ok stream.

(** ** Submission *)

(** The calls the backend makes on the write side of the API. *)
Inductive ApiCall : Type :=
| create_project (project_name : string) (number_of_shots : Z)
| execute_qasm_async (qasm : string) (number_of_shots : Z) (job_name : string)
    (user_data : UserData).

Record QIJob : Type := {
  qi_job_id : string;
  qi_experiments : list QobjExperiment
}.

(** [_submit_experiment]: the call it makes, unless the translation or the
    collection of the measurements raises. *)
Definition _submit_experiment (P : CircuitToString) (experiment : QobjExperiment)
  (number_of_shots : Z) : result ApiCall :=
  compiled_qasm <- _generate_cqasm P experiment ;;
  measurements <- _collect_measurements experiment ;;
  let user_data :=
    {| ud_name := header_name (header experiment);
       ud_memory_slots := memory_slots (header experiment);
       ud_creg_sizes := creg_sizes (header experiment);
       ud_measurements := measurements |} in
  Ok (execute_qasm_async compiled_qasm number_of_shots
        (header_name (header experiment)) user_data).

(** The submissions of [run], one experiment after the other; the calls
    made before an exception stay made. *)
Fixpoint submit_experiments (P : CircuitToString) (exps : list QobjExperiment)
  (number_of_shots : Z) (calls : list ApiCall) : list ApiCall * result unit :=
  match exps with
  | [] => (calls, Ok tt)
  | experiment :: exps' =>
      match _submit_experiment P experiment number_of_shots with
      | Ok call => submit_experiments P exps' number_of_shots (calls ++ [call])
      | Raise e => (calls, Raise e)
      end
  end.

(** [run]: the calls made on the API and the job returned.  [identifier] is
    the text of [uuid.uuid1()] and [project_id] the identifier of the project
    the API created. *)
Definition run (P : CircuitToString) (qobj : Qobj) (identifier project_id : string)
  : list ApiCall * result QIJob :=
  match __validate qobj with
  | Raise e => ([], Raise e)
  | Ok _ =>
      let number_of_shots := shots (config qobj) in
      let project_name := "qi-sdk-project-" ++ identifier in
      let calls := [create_project project_name number_of_shots] in
      let experiments := experiments qobj in
      match submit_experiments P experiments number_of_shots calls with
      | (calls, Ok _) =>
          (calls, Ok {| qi_job_id := project_id; qi_experiments := experiments |})
      | (calls, Raise e) => (calls, Raise e)
      end
  end.

(** ** The mask of a classical condition *)

(** The position of the lowest bit set in a positive number. *)
Fixpoint lowest_set_bit (p : positive) : Z :=
  match p with
  | xO p' => 1 + lowest_set_bit p'
  | _ => 0
  end.

(** The position of the highest bit set in a positive number. *)
Fixpoint highest_set_bit (p : positive) : Z :=
  match p with
  | xH => 0
  | xO p' | xI p' => 1 + highest_set_bit p'
  end.

(** Modelled from the spec: [CircuitToString.get_mask_data] of
    [circuit_parser.py], which is not among the sources.  Given a
    non-negative integer bitmask it returns the lowest set bit position and
    the count of bits spanned from the lowest set bit through the highest set
    bit, or (-1, 0) for a zero mask. *)
Definition get_mask_data (mask : N) : Z * Z :=
  match mask with
  | N0 => (-1, 0)
  | Npos p =>
      let lowest_mask_bit := lowest_set_bit p in
      (lowest_mask_bit, highest_set_bit p - lowest_mask_bit + 1)
  end.

(** ** The text of a translation, statement by statement *)

(** The lines in one string. *)
Definition join (lines : list string) : string := fold_right append "" lines.

(** The statements emitted for a sequence of instructions, in order: what
    the methods of the parser return, an instruction that returns no line
    left out.  The parser after the last instruction is returned with them. *)
Fixpoint statements (P : CircuitToString) (parser : parser_state P)
  (instrs : list Instruction) : result (parser_state P * list string) :=
  match instrs with
  | [] => Ok (parser, [])
  | instruction :: rest =>
      '(parser, line) <- call_gate P parser ("_" ++ lower (name instruction)) instruction ;;
      '(parser, lines) <- statements P parser rest ;;
      Ok (parser, match line with
                  | Some line => line :: lines
                  | None => lines
                  end)
  end.

(** ** Sample data *)

Definition qubit_operand (instruction : Instruction) (position : nat) : string :=
  "q[" ++ format_d (nth position (qubits instruction) 0) ++ "]".

(** A parser with three methods, which emit what the test of the entangle
    algorithm expects of [h], [cx] and [measure]; [bfunc] declares a
    condition and emits nothing. *)
Definition sample_parser : CircuitToString :=
  {| parser_state := unit;
     new_parser := tt;
     gate_table :=
       [("_h", fun parser i => Ok (parser, Some ("H " ++ qubit_operand i 0 ++ nl)));
        ("_cx", fun parser i =>
                  Ok (parser,
                      Some ("CNOT " ++ qubit_operand i 0 ++ ", " ++ qubit_operand i 1 ++ nl)));
        ("_measure", fun parser i => Ok (parser, None));
        ("_bfunc", fun parser i => Ok (parser, None))] |}.

Definition gate (gate_name : string) (gate_qubits : list Z) : Instruction :=
  {| name := gate_name; qubits_attribute := Some gate_qubits; memory := []; params := [];
     conditional := None |}.

Definition measure (qubit clbit : Z) : Instruction :=
  {| name := "measure"; qubits_attribute := Some [qubit]; memory := [clbit]; params := [];
     conditional := None |}.

(** The instruction that computes a classical condition: it has no qubits. *)
Definition bfunc : Instruction :=
  {| name := "bfunc"; qubits_attribute := None; memory := []; params := [];
     conditional := None |}.

(** The unknown gate of the tests, with and without a classical condition. *)
Definition bla (condition : option Z) : Instruction :=
  {| name := "bla"; qubits_attribute := Some [1]; memory := [];
     params := [(-1.5707963267948966)%float]; conditional := condition |}.

Definition sample_header (qubits_and_clbits : Z) : ExperimentHeader :=
  {| n_qubits := qubits_and_clbits; memory_slots := qubits_and_clbits;
     header_name := "circuit0"; creg_sizes := [("c", qubits_and_clbits)] |}.

(** The circuit of [test_generate_cqasm_with_entangle_algorithm]. *)
Definition entangle : QobjExperiment :=
  {| header := sample_header 2;
     instructions := [gate "h" [0]; gate "cx" [0; 1]; measure 0 0; measure 1 1] |}.

(** The instructions of [test_generate_cqasm_correct_output_unknown_gate]. *)
Definition unknown_gate : QobjExperiment :=
  {| header := sample_header 2;
     instructions := [bla None] |}.

(** The instructions of
    [test_generate_cqasm_correct_output_unknown_controlled_gate]. *)
Definition unknown_controlled_gate : QobjExperiment :=
  {| header := sample_header 2;
     instructions := [bfunc; bla (Some 17)] |}.

(** The attributes in the order of the dictionary, and in the opposite
    order. *)
Definition dictionary_order : AttributeOrder :=
  {| attribute_order := fun V d => d;
     attribute_order_perm := fun V d => Permutation_refl d |}.

Definition reverse_order : AttributeOrder :=
  {| attribute_order := fun V d => rev d;
     attribute_order_perm := fun V d => Permutation_rev d |}.

Definition identity_map_2 : Measurements :=
  {| measurements := [(0, 0); (1, 1)]; number_of_clbits := 2 |}.

(** A result on two qubits with the states 00 and 11 in equal parts. *)
Definition bell_result : Result :=
  {| result_id := 1;
     histogram := Some [(0%N, 0.5%float); (3%N, 0.5%float)];
     number_of_qubits := 2;
     raw_text := Some "";
     execution_time_in_seconds := 1.5%float |}.

Definition bell_job : Job :=
  {| job_results := "results/1";
     job_user_data :=
       {| ud_name := "circuit0"; ud_memory_slots := 2; ud_creg_sizes := [("c", 2)];
          ud_measurements := identity_map_2 |};
     job_name := "circuit0";
     job_number_of_shots := 3 |}.

(** An API with the job above, run for three shots. *)
Definition bell_api : QuantumInspireApi :=
  {| get_jobs_from_project := fun _ => [bell_job];
     get := fun _ => bell_result;
     get_raw_data := fun _ => [3%N; 0%N; 3%N] |}.

(** The same job run for one shot: the API has no raw data. *)
Definition single_shot_api : QuantumInspireApi :=
  {| get_jobs_from_project := fun _ => [bell_job];
     get := fun _ => bell_result;
     get_raw_data := fun _ => [] |}.

(** A random generator that returns [r] at every draw. *)
Definition constant_rng (r : float) : RandomState :=
  {| draws := fun _ => r; drawn := 0 |}.

(** A result whose histogram has a total mass of one half. *)
Definition half_result : Result :=
  {| result_id := 2;
     histogram := Some [(0%N, 0.5%float)];
     number_of_qubits := 2;
     raw_text := None;
     execution_time_in_seconds := 1.5%float |}.

(** A result on two qubits whose probabilities are 0.2, 0.7 and 0.1. *)
Definition normalised_result : Result :=
  {| result_id := 4;
     histogram := Some [(0%N, 0.2%float); (1%N, 0.7%float); (2%N, 0.1%float)];
     number_of_qubits := 2;
     raw_text := Some "";
     execution_time_in_seconds := 1.5%float |}.

(** The largest number [np.random.rand] returns: 1 - 2^-53. *)
Definition largest_draw : float := 0x1.fffffffffffffp-1%float.



(** A result on five qubits with the registers 2, 10 and 16, run for four
    shots, and the map that measures every qubit into its classical bit. *)
Definition wide_result : Result :=
  {| result_id := 6;
     histogram := Some [(2%N, 0.25%float); (10%N, 0.25%float); (16%N, 0.5%float)];
     number_of_qubits := 5;
     raw_text := Some "";
     execution_time_in_seconds := 1.5%float |}.

Definition wide_api : QuantumInspireApi :=
  {| get_jobs_from_project := fun _ => [];
     get := fun _ => wide_result;
     get_raw_data := fun _ => [16%N; 2%N; 10%N; 16%N] |}.

Definition identity_map_5 : Measurements :=
  {| measurements := [(0, 0); (1, 1); (2, 2); (3, 3); (4, 4)]; number_of_clbits := 5 |}.

(** The call that submits the entangle circuit for 1024 shots. *)
Definition entangle_call : ApiCall :=
  execute_qasm_async
    ("version 1.0" ++ nl
     ++ "# cQASM generated by QI backend for Qiskit" ++ nl
     ++ "qubits 2" ++ nl
     ++ "H q[0]" ++ nl
     ++ "CNOT q[0], q[1]" ++ nl)
    1024 "circuit0"
    {| ud_name := "circuit0"; ud_memory_slots := 2; ud_creg_sizes := [("c", 2)];
       ud_measurements := {| measurements := [(1, 1); (0, 0)]; number_of_clbits := 2 |} |}.

(** The job of the entangle circuit. *)
Definition entangle_job : Qobj :=
  {| config := {| shots := 1024 |}; experiments := [entangle] |}.

(** A job whose experiment computes a classical condition before a gate,
    and the same job with a measurement of the qubit of the gate first. *)
Definition condition_job : Qobj :=
  {| config := {| shots := 1024 |};
     experiments :=
       [{| header := sample_header 2; instructions := [bfunc; gate "h" [0]] |}] |}.

Definition measured_condition_job : Qobj :=
  {| config := {| shots := 1024 |};
     experiments :=
       [{| header := sample_header 2;
           instructions := [measure 0 0; bfunc; gate "h" [0]] |}] |}.

(** A job of two experiments, the second with an unknown gate. *)
Definition entangle_then_unknown : Qobj :=
  {| config := {| shots := 1024 |}; experiments := [entangle; unknown_gate] |}.

(** * Specification

    The predicates in which the properties of the backend are stated. *)

(** The qubits measured by a sequence of instructions, in order. *)
Definition measured_by (instrs : list Instruction) : list Z :=
  flat_map qubits (filter is_measure instrs).

(** A gate after a measurement: an instruction other than [measure] acts on
    a qubit that is already in [measured] or that an earlier instruction of
    the sequence measured. *)
Definition gate_after_measure_from (measured : list Z) (instrs : list Instruction) : Prop :=
  exists before instruction after qubit,
    instrs = (before ++ instruction :: after)%list
    /\ name instruction <> "measure"
    /\ In qubit (qubits instruction)
    /\ In qubit (measured ++ measured_by before)%list.

Definition gate_after_measure (experiment : QobjExperiment) : Prop :=
  exists before instruction after qubit earlier,
    instructions experiment = (before ++ instruction :: after)%list
    /\ name instruction <> "measure"
    /\ In qubit (qubits instruction)
    /\ In earlier before /\ name earlier = "measure" /\ In qubit (qubits earlier).

(** Every instruction of the sequence has the attribute [qubits]. *)
Definition have_qubits (instrs : list Instruction) : Prop :=
  Forall (fun instruction => qubits_attribute instruction <> None) instrs.

(** Every instruction of every experiment of the job has the attribute
    [qubits]. *)
Definition instructions_have_qubits (job : Qobj) : Prop :=
  Forall (fun experiment => have_qubits (instructions experiment)) (experiments job).

(** An experiment that passes the two checks made on each experiment. *)
Definition valid_experiment (experiment : QobjExperiment) : Prop :=
  1 <= memory_slots (header experiment) /\ ~ gate_after_measure experiment.

(** What the two checks report on an experiment they refuse. *)
Definition experiment_error (experiment : QobjExperiment) (e : exception) : Prop :=
  (memory_slots (header experiment) < 1
   /\ e = QisKitBackendError (invalid_clbits_message (memory_slots (header experiment))))
  \/ (gate_after_measure experiment
      /\ e = QisKitBackendError operation_after_measurement).

(** The pair stored for a [measure] instruction: the positions of the qubit
    and of the classical bit in the binary strings of the registers, which
    are written most significant bit first. *)
Definition stored_pair (number_of_qubits number_of_clbits : Z) (m : Instruction) : Z * Z :=
  (number_of_qubits - 1 - hd 0 (qubits m), number_of_clbits - 1 - hd 0 (memory m)).

(** The call does not raise [QisKitBackendError]. *)
Definition no_backend_error {A : Type} (r : result A) : Prop :=
  forall msg, r <> Raise (QisKitBackendError msg).

(** The fields of an experiment result that do not depend on the job. *)
Definition fixed_fields (er : ExperimentResult) : Prop :=
  er_success er = true /\ er_status er = "DONE" /\ er_seed er = 42.

(** The fields of an experiment result copied from the job and its result. *)
Definition copied_fields (api : QuantumInspireApi) (job : Job) (er : ExperimentResult) : Prop :=
  er_name er = job_name job
  /\ er_shots er = job_number_of_shots job
  /\ er_time_taken er = execution_time_in_seconds (get api (job_results job))
  /\ er_header er
     = {| rh_name := ud_name (job_user_data job);
          rh_memory_slots := ud_memory_slots (job_user_data job);
          rh_creg_sizes := ud_creg_sizes (job_user_data job) |}.

(** The key was printed by [hex]. *)
Definition is_hex (key : string) : Prop := exists n, key = hex n.

(** The keys of a dictionary are distinct and all satisfy [P]. *)
Definition good_keys {V : Type} (P : string -> Prop) (d : list (string * V)) : Prop :=
  NoDup (map fst d) /\ Forall P (map fst d).

Definition key_le {A : Type} (a b : N * A) : Prop := (fst a <= fst b)%N.

(** Any two consecutive keys of the mapping are in strictly ascending order
    of [int(key, 16)]. *)
Definition ascending_hex_keys {V : Type} (h : list (string * V)) : Prop :=
  forall before k1 v1 k2 v2 after,
    h = (before ++ (k1, v1) :: (k2, v2) :: after)%list ->
    exists n1 n2, int_base16 k1 = Ok n1 /\ int_base16 k2 = Ok n2 /\ (n1 < n2)%N.

(** [sum(h.values())]: the values added one after the other, in binary64. *)
Definition total_mass {K : Type} (h : list (K * float)) : float :=
  fold_left (fun acc kv => (acc + snd kv)%float) h 0%float.



(** Every position of the map is an index of its register: the positions of
    qubits are indices of a string of [number_of_qubits] digits, those of
    classical bits are indices of a list of [number_of_clbits] characters,
    which is not empty. *)
Definition measurements_in_range (m : Measurements) (number_of_qubits : nat) : Prop :=
  1 <= number_of_clbits m
  /\ Forall (fun qc =>
               - Z.of_nat number_of_qubits <= fst qc < Z.of_nat number_of_qubits
               /\ - number_of_clbits m <= snd qc < number_of_clbits m)
            (measurements m).

Definition is_bit (c : ascii) : Prop := c = "0"%char \/ c = "1"%char.

(** The cumulative probability after the entries [h], counted from [sum]:
    the additions of the loop of the single shot, in binary64 and in order. *)
Definition cumulative (sum : float) (h : list (N * float)) : float :=
  fold_left (fun acc kv => (acc + snd kv)%float) h sum.

(** No cumulative probability of [h], counted from [sum], exceeds [prob]. *)
Definition none_exceeding (prob sum : float) (h : list (N * float)) : Prop :=
  forall b1 x b2, h = (b1 ++ x :: b2)%list ->
                  (prob <? cumulative sum (b1 ++ [x]))%float = false.

(** The entry at which the loop stops: the first one whose cumulative
    probability, counted from [sum], exceeds [prob]. *)
Definition first_exceeding (prob sum : float) (before : list (N * float))
  (entry : N * float) : Prop :=
  none_exceeding prob sum before
  /\ (prob <? cumulative sum (before ++ [entry]))%float = true.

(** The bit a character of a binary string stands for. *)
Definition bit_of (c : ascii) : bool := Ascii.eqb c "1".

(** The positions of the map are indices counted from the left, none of
    them negative: those of qubits below [number_of_qubits], those of
    classical bits below [number_of_clbits]. *)
Definition positions_in_range (m : Measurements) (number_of_qubits : nat) : Prop :=
  Forall (fun qc =>
            0 <= fst qc < Z.of_nat number_of_qubits
            /\ 0 <= snd qc < number_of_clbits m)
         (measurements m).

(** The classical state as the loop of [__qubit_to_classical_hex] leaves it
    when every index is in range: the characters copied one after the other. *)
Definition copy_bits (qubit_state : list ascii) (ms : list (Z * Z))
  (classical_state : list ascii) : list ascii :=
  fold_left (fun cs qc =>
               replace_nth cs (Z.to_nat (snd qc)) (nth (Z.to_nat (fst qc)) qubit_state "0"%char))
            ms classical_state.

(** The sum of the counts of a histogram. *)
Definition total_count {K : Type} (h : list (K * Z)) : Z :=
  fold_right (fun kv acc => snd kv + acc) 0 h.

(** The number of times a classical state occurs in the memory data. *)
Definition occurrences (memory_data : list string) (key : string) : Z :=
  Z.of_nat (count_occ string_dec memory_data key).

(** The job was run for a single shot: the API has no raw data for its
    result. *)
Definition without_raw_data (api : QuantumInspireApi) (job : Job) : bool :=
  match get_raw_data api (format_d (result_id (get api (job_results job)))) with
  | [] => true
  | _ :: _ => false
  end.

(** The call [_submit_experiment] makes for an experiment: the translation
    and the measurement map of the experiment, sent with the number of shots
    and the name and sizes of the header. *)
Definition submission_of (P : CircuitToString) (number_of_shots : Z)
  (experiment : QobjExperiment) (call : ApiCall) : Prop :=
  exists compiled_qasm mm,
    _generate_cqasm P experiment = Ok compiled_qasm
    /\ _collect_measurements experiment = Ok mm
    /\ call
       = execute_qasm_async compiled_qasm number_of_shots (header_name (header experiment))
           {| ud_name := header_name (header experiment);
              ud_memory_slots := memory_slots (header experiment);
              ud_creg_sizes := creg_sizes (header experiment);
              ud_measurements := mm |}.

(** * Properties *)

(** ** The primitives, on concrete values *)

Example hex_255 : hex 255 = "0xff".
Proof. reflexivity. Qed.

Example hex_0 : hex 0 = "0x0".
Proof. reflexivity. Qed.

Example format_0b_5_6 : format_0b 5 6 = ["0"; "0"; "0"; "1"; "0"; "1"]%char.
Proof. reflexivity. Qed.

Example format_0b_overflow : format_0b 5 2 = ["1"; "0"; "1"]%char.
Proof. reflexivity. Qed.

Example int_base16_1f : int_base16 "0x1f" = Ok 31%N.
Proof. reflexivity. Qed.

Example qubit_to_classical_hex_swap :
  __qubit_to_classical_hex 2 {| measurements := [(0, 1); (1, 0)]; number_of_clbits := 2 |} 2
  = Ok "0x1".
Proof. reflexivity. Qed.

Example qubit_to_classical_hex_out_of_range :
  __qubit_to_classical_hex 2 {| measurements := [(0, 2)]; number_of_clbits := 2 |} 2
  = Raise IndexError.
Proof. reflexivity. Qed.

(** ** The mask decoder *)

Lemma lowest_set_bit_nonneg (p : positive) : 0 <= lowest_set_bit p.
Proof. induction p; cbn [lowest_set_bit]; lia. Qed.

Lemma lowest_le_highest (p : positive) : lowest_set_bit p <= highest_set_bit p.
Proof.
  induction p; cbn [lowest_set_bit highest_set_bit]; try lia.
  pose proof (lowest_set_bit_nonneg p). lia.
Qed.

Lemma lowest_set_bit_set (p : positive) :
  Z.testbit (Z.pos p) (lowest_set_bit p) = true.
Proof.
  induction p as [p IH | p IH | ]; cbn [lowest_set_bit].
  - rewrite Pos2Z.inj_xI. apply Z.testbit_odd_0.
  - rewrite Pos2Z.inj_xO.
    replace (1 + lowest_set_bit p) with (Z.succ (lowest_set_bit p)) by lia.
    rewrite Z.testbit_even_succ by apply lowest_set_bit_nonneg. exact IH.
  - reflexivity.
Qed.

Lemma below_lowest_set_bit (p : positive) (i : Z) :
  i < lowest_set_bit p -> Z.testbit (Z.pos p) i = false.
Proof.
  revert i. induction p as [p IH | p IH | ]; cbn [lowest_set_bit]; intros i Hi.
  - apply Z.testbit_neg_r. lia.
  - destruct (Z.ltb_spec i 0) as [Hneg | Hpos].
    + apply Z.testbit_neg_r. exact Hneg.
    + rewrite Pos2Z.inj_xO.
      destruct (Z.eq_dec i 0) as [-> | Hnz].
      * apply Z.testbit_even_0.
      * replace i with (Z.succ (i - 1)) by lia.
        rewrite Z.testbit_even_succ by lia. apply IH. lia.
  - apply Z.testbit_neg_r. lia.
Qed.

Lemma highest_set_bit_nonneg (p : positive) : 0 <= highest_set_bit p.
Proof. induction p; cbn [highest_set_bit]; lia. Qed.

Lemma highest_set_bit_set (p : positive) :
  Z.testbit (Z.pos p) (highest_set_bit p) = true.
Proof.
  induction p as [p IH | p IH | ]; cbn [highest_set_bit].
  - rewrite Pos2Z.inj_xI.
    replace (1 + highest_set_bit p) with (Z.succ (highest_set_bit p)) by lia.
    rewrite Z.testbit_odd_succ by apply highest_set_bit_nonneg. exact IH.
  - rewrite Pos2Z.inj_xO.
    replace (1 + highest_set_bit p) with (Z.succ (highest_set_bit p)) by lia.
    rewrite Z.testbit_even_succ by apply highest_set_bit_nonneg. exact IH.
  - reflexivity.
Qed.

Lemma above_highest_set_bit (p : positive) (i : Z) :
  highest_set_bit p < i -> Z.testbit (Z.pos p) i = false.
Proof.
  revert i. induction p as [p IH | p IH | ]; cbn [highest_set_bit]; intros i Hi.
  - pose proof (highest_set_bit_nonneg p).
    rewrite Pos2Z.inj_xI. replace i with (Z.succ (i - 1)) by lia.
    rewrite Z.testbit_odd_succ by lia. apply IH. lia.
  - pose proof (highest_set_bit_nonneg p).
    rewrite Pos2Z.inj_xO. replace i with (Z.succ (i - 1)) by lia.
    rewrite Z.testbit_even_succ by lia. apply IH. lia.
  - change (Z.pos 1) with (2 * 0 + 1).
    replace i with (Z.succ (i - 1)) by lia.
    rewrite Z.testbit_odd_succ by lia. apply Z.testbit_0_l.
Qed.

(** C2.  On a zero mask [get_mask_data] returns (-1, 0).  On any other
    non-negative mask it returns the position of the lowest set bit and the
    number of positions from that bit through the highest set bit, unset bits
    in between counted; the seven masks of the test suite give the expected
    pairs. *)
Theorem get_mask_data_spec (mask : N) :
  (mask = 0%N -> get_mask_data mask = (-1, 0))
  /\ (mask <> 0%N ->
      exists lowest highest,
        get_mask_data mask = (lowest, highest - lowest + 1)
        /\ 0 <= lowest <= highest
        /\ Z.testbit (Z.of_N mask) lowest = true
        /\ (forall i, i < lowest -> Z.testbit (Z.of_N mask) i = false)
        /\ Z.testbit (Z.of_N mask) highest = true
        /\ (forall i, highest < i -> Z.testbit (Z.of_N mask) i = false))
  /\ get_mask_data 0 = (-1, 0)
  /\ get_mask_data 1 = (0, 1)
  /\ get_mask_data 56 = (3, 3)
  /\ get_mask_data 255 = (0, 8)
  /\ get_mask_data 510 = (1, 8)
  /\ get_mask_data 128 = (7, 1)
  /\ get_mask_data 192 = (6, 2).
Proof.
  split; [intros ->; reflexivity | ].
  split; [ | repeat split; reflexivity].
  intros Hmask. destruct mask as [ | p]; [congruence | ].
  exists (lowest_set_bit p), (highest_set_bit p). simpl.
  split; [reflexivity | ].
  split; [split; [apply lowest_set_bit_nonneg | apply lowest_le_highest] | ].
  split; [apply lowest_set_bit_set | ].
  split; [apply below_lowest_set_bit | ].
  split; [apply highest_set_bit_set | apply above_highest_set_bit].
Qed.

(** A mask with a gap: bits 3 and 5 set, bit 4 unset, span of three bits. *)
Example get_mask_data_gap : get_mask_data 40 = (3, 3).
Proof. reflexivity. Qed.

(** ** Loops and exceptions *)

Lemma bind_Ok {A B : Type} (r : result A) (k : A -> result B) (b : B) :
  bind r k = Ok b -> exists a, r = Ok a /\ k a = Ok b.
Proof. destruct r as [a | e]; simpl; [eauto | discriminate]. Qed.

Lemma bind_Raise {A B : Type} (r : result A) (k : A -> result B) (e : exception) :
  bind r k = Raise e -> r = Raise e \/ exists a, r = Ok a /\ k a = Raise e.
Proof. destruct r as [a | e']; simpl; [eauto | intros [= ->]; auto]. Qed.

Lemma for_each_app {A S : Type} (body : S -> A -> result S) (xs ys : list A) (acc : S) :
  for_each body (xs ++ ys) acc = (acc' <- for_each body xs acc ;; for_each body ys acc').
Proof.
  revert acc. induction xs as [ | x xs IH]; intros acc; simpl; [reflexivity | ].
  destruct (body acc x) as [acc' | e]; simpl; [apply IH | reflexivity].
Qed.

(** ** Validation of a submitted job *)

Lemma py_in_In (qubit : Z) (measured : list Z) :
  py_in qubit measured = true <-> In qubit measured.
Proof.
  unfold py_in. rewrite existsb_exists. split.
  - intros (x & Hx & Heq). apply Z.eqb_eq in Heq. now subst.
  - intros H. exists qubit. split; [exact H | apply Z.eqb_refl].
Qed.

Lemma getattr_qubits_Some (instruction : Instruction) :
  qubits_attribute instruction <> None ->
  getattr_qubits instruction = Ok (qubits instruction).
Proof.
  unfold getattr_qubits, qubits.
  destruct (qubits_attribute instruction); [reflexivity | congruence].
Qed.

Lemma getattr_qubits_Ok (instruction : Instruction) (instruction_qubits : list Z) :
  getattr_qubits instruction = Ok instruction_qubits ->
  qubits instruction = instruction_qubits.
Proof.
  unfold getattr_qubits, qubits.
  destruct (qubits_attribute instruction); [now intros [= ->] | discriminate].
Qed.

Lemma getattr_qubits_nonempty (instruction : Instruction) :
  qubits instruction <> [] -> getattr_qubits instruction = Ok (qubits instruction).
Proof.
  intros Hne. apply getattr_qubits_Some. intros Hnone.
  apply Hne. unfold qubits. now rewrite Hnone.
Qed.

Lemma check_without_qubits (measured : list Z) (instruction : Instruction) :
  qubits_attribute instruction = None ->
  check_instruction measured instruction = Raise (AttributeError "qubits").
Proof.
  intros Hnone. unfold check_instruction, getattr_qubits. now rewrite Hnone.
Qed.

Lemma check_measure (measured : list Z) (instruction : Instruction) :
  qubits_attribute instruction <> None ->
  name instruction = "measure" ->
  check_instruction measured instruction = Ok (measured ++ qubits instruction)%list.
Proof.
  intros Hqubits Hname. unfold check_instruction.
  rewrite (getattr_qubits_Some _ Hqubits), Hname. cbn [bind]. simpl String.eqb.
  generalize (qubits instruction) as qs. intros qs. revert measured.
  induction qs as [ | q qs IH]; intros measured; simpl.
  - now rewrite app_nil_r.
  - rewrite IH, <- app_assoc. reflexivity.
Qed.

Lemma check_gate (measured : list Z) (instruction : Instruction) :
  qubits_attribute instruction <> None ->
  name instruction <> "measure" ->
  (check_instruction measured instruction = Ok measured
   /\ forall qubit, In qubit (qubits instruction) -> ~ In qubit measured)
  \/ (check_instruction measured instruction
      = Raise (QisKitBackendError operation_after_measurement)
      /\ exists qubit, In qubit (qubits instruction) /\ In qubit measured).
Proof.
  intros Hqubits Hname. unfold check_instruction.
  rewrite (getattr_qubits_Some _ Hqubits). cbn [bind].
  apply String.eqb_neq in Hname. rewrite Hname.
  induction (qubits instruction) as [ | q qs IH]; simpl.
  - left. split; [reflexivity | intros ? []].
  - destruct (py_in q measured) eqn:Hin; simpl.
    + right. split; [reflexivity | ].
      exists q. split; [now left | now apply py_in_In].
    + assert (~ In q measured) as Hq by (rewrite <- py_in_In; congruence).
      destruct IH as [[-> Hall] | [-> (q' & Hq' & Hm)]].
      * left. split; [reflexivity | ]. intros q' [<- | Hq']; auto.
      * right. split; [reflexivity | ]. exists q'. auto.
Qed.

Lemma measured_by_cons (instruction : Instruction) (instrs : list Instruction) :
  measured_by (instruction :: instrs)
  = ((if is_measure instruction then qubits instruction else []) ++ measured_by instrs)%list.
Proof. unfold measured_by. simpl. destruct (is_measure instruction); reflexivity. Qed.

Lemma gate_after_measure_cons (measured : list Z) (instruction : Instruction)
  (instrs : list Instruction) :
  gate_after_measure_from measured (instruction :: instrs)
  <-> (name instruction <> "measure"
       /\ exists qubit, In qubit (qubits instruction) /\ In qubit measured)
      \/ gate_after_measure_from
           (measured ++ (if is_measure instruction then qubits instruction else []))
           instrs.
Proof.
  split.
  - intros (before & i & after & q & Heq & Hname & Hq & Hm).
    destruct before as [ | b before]; simpl in Heq; injection Heq as -> ->.
    + left. split; [exact Hname | ]. exists q. split; [exact Hq | ].
      unfold measured_by in Hm. simpl in Hm. now rewrite app_nil_r in Hm.
    + right. exists before, i, after, q. repeat split; auto.
      rewrite measured_by_cons, app_assoc in Hm. exact Hm.
  - intros [(Hname & q & Hq & Hm) | (before & i & after & q & -> & Hname & Hq & Hm)].
    + exists [], instruction, instrs, q. repeat split; auto.
      unfold measured_by. simpl. now rewrite app_nil_r.
    + exists (instruction :: before), i, after, q. repeat split; auto.
      rewrite measured_by_cons, app_assoc. exact Hm.
Qed.

Lemma check_instructions_spec (instrs : list Instruction) (measured : list Z) :
  have_qubits instrs ->
  match for_each check_instruction instrs measured with
  | Ok measured' =>
      measured' = (measured ++ measured_by instrs)%list
      /\ ~ gate_after_measure_from measured instrs
  | Raise e =>
      e = QisKitBackendError operation_after_measurement
      /\ gate_after_measure_from measured instrs
  end.
Proof.
  intros Hqubits. revert measured.
  induction Hqubits as [ | i instrs Hi _ IH]; intros measured; simpl.
  - split; [now rewrite app_nil_r | ].
    intros (before & i & after & q & Heq & _). now destruct before.
  - destruct (String.eqb_spec (name i) "measure") as [Hm | Hg].
    + rewrite (check_measure _ _ Hi Hm). simpl.
      assert (is_measure i = true) as Him by (unfold is_measure; now rewrite Hm).
      specialize (IH (measured ++ qubits i)%list).
      pose proof (gate_after_measure_cons measured i instrs) as Hcons.
      rewrite Him in Hcons.
      destruct (for_each check_instruction instrs (measured ++ qubits i)%list)
        as [measured' | e].
      * destruct IH as [-> Hno]. split.
        -- rewrite measured_by_cons, Him, app_assoc. reflexivity.
        -- rewrite Hcons. intros [[Hname _] | H]; [now apply Hname | now apply Hno].
      * destruct IH as [-> Hyes]. split; [reflexivity | ]. apply Hcons. now right.
    + assert (is_measure i = false) as Him
          by (unfold is_measure; now apply String.eqb_neq).
      pose proof (gate_after_measure_cons measured i instrs) as Hcons.
      rewrite Him, app_nil_r in Hcons.
      destruct (check_gate measured i Hi Hg) as [[-> Hall] | [-> Hex]]; simpl.
      * specialize (IH measured).
        destruct (for_each check_instruction instrs measured) as [measured' | e].
        -- destruct IH as [-> Hno]. split.
           ++ rewrite measured_by_cons, Him. reflexivity.
           ++ rewrite Hcons. intros [(_ & q & Hq & Hin) | H];
                [now apply (Hall q) | now apply Hno].
        -- destruct IH as [-> Hyes]. split; [reflexivity | ]. apply Hcons. now right.
      * split; [reflexivity | ]. apply Hcons. left. split; assumption.
Qed.

Lemma In_measured_by (qubit : Z) (instrs : list Instruction) :
  In qubit (measured_by instrs)
  <-> exists earlier, In earlier instrs /\ name earlier = "measure" /\ In qubit (qubits earlier).
Proof.
  unfold measured_by. rewrite in_flat_map. split.
  - intros (m & Hm & Hq). apply filter_In in Hm as [Hin Him].
    exists m. repeat split; auto. now apply String.eqb_eq.
  - intros (m & Hin & Hname & Hq). exists m. split; [ | exact Hq].
    apply filter_In. split; [exact Hin | ]. unfold is_measure. now apply String.eqb_eq.
Qed.

Lemma gate_after_measure_from_nil (experiment : QobjExperiment) :
  gate_after_measure_from [] (instructions experiment) <-> gate_after_measure experiment.
Proof.
  unfold gate_after_measure_from, gate_after_measure. split.
  - intros (before & i & after & q & Heq & Hname & Hq & Hm).
    simpl in Hm. apply In_measured_by in Hm as (m & Hin & Hmn & Hmq).
    exists before, i, after, q, m. repeat split; auto.
  - intros (before & i & after & q & m & Heq & Hname & Hq & Hin & Hmn & Hmq).
    exists before, i, after, q. repeat split; auto.
    simpl. apply In_measured_by. exists m. auto.
Qed.

Lemma validate_no_gates_after_measure_spec (experiment : QobjExperiment) :
  have_qubits (instructions experiment) ->
  match __validate_no_gates_after_measure experiment with
  | Ok _ => ~ gate_after_measure experiment
  | Raise e =>
      e = QisKitBackendError operation_after_measurement /\ gate_after_measure experiment
  end.
Proof.
  intros Hqubits. unfold __validate_no_gates_after_measure.
  pose proof (check_instructions_spec (instructions experiment) [] Hqubits) as H.
  destruct (for_each check_instruction (instructions experiment) []) as [ms | e]; simpl.
  - rewrite <- gate_after_measure_from_nil. apply H.
  - rewrite <- gate_after_measure_from_nil. exact H.
Qed.

Lemma validate_experiments_spec (exps : list QobjExperiment) :
  Forall (fun experiment => have_qubits (instructions experiment)) exps ->
  match
    for_each (fun (_ : unit) experiment =>
                _ <- __validate_number_of_clbits experiment ;;
                __validate_no_gates_after_measure experiment) exps tt
  with
  | Ok _ => Forall valid_experiment exps
  | Raise e => exists experiment, In experiment exps /\ experiment_error experiment e
  end.
Proof.
  induction 1 as [ | x exps Hqubits _ IH]; simpl; [constructor | ].
  unfold __validate_number_of_clbits at 1.
  destruct (Z.ltb_spec (memory_slots (header x)) 1) as [Hlt | Hge]; simpl.
  - exists x. split; [now left | ]. left. auto.
  - pose proof (validate_no_gates_after_measure_spec x Hqubits) as Hx.
    destruct (__validate_no_gates_after_measure x) as [[] | e]; simpl.
    + match goal with |- match ?r with _ => _ end => destruct r as [u | e] end.
      * constructor; [split; assumption | exact IH].
      * destruct IH as (y & Hy & Herr). exists y. split; [now right | exact Herr].
    + exists x. split; [now left | ]. right. destruct Hx. auto.
Qed.

(** C9, as the code has it.  For a job whose instructions all have the
    attribute [qubits], [__validate] accepts the job exactly when its number
    of shots is at least 1 and every experiment declares at least one
    classical bit and has no gate after a measurement.  It raises exactly when
    one of the three conditions fails, and what it raises is
    [QisKitBackendError] with the message of the failed check; [run]
    validates first: a refused job makes no call on the API, an accepted job
    goes on to create the project. *)
Theorem validate_spec (job : Qobj) :
  instructions_have_qubits job ->
  (__validate job = Ok tt
   <-> 1 <= shots (config job) /\ Forall valid_experiment (experiments job))
  /\ ((exists e, __validate job = Raise e)
      <-> shots (config job) < 1
          \/ exists experiment,
               In experiment (experiments job)
               /\ (memory_slots (header experiment) < 1 \/ gate_after_measure experiment))
  /\ (forall e,
        __validate job = Raise e ->
        (shots (config job) < 1
         /\ e = QisKitBackendError (invalid_shots_message (shots (config job))))
        \/ exists experiment, In experiment (experiments job) /\ experiment_error experiment e)
  /\ (forall P identifier project_id e,
        __validate job = Raise e -> run P job identifier project_id = ([], Raise e))
  /\ (forall P identifier project_id,
        __validate job = Ok tt ->
        exists calls outcome,
          run P job identifier project_id
          = (create_project ("qi-sdk-project-" ++ identifier) (shots (config job)) :: calls,
             outcome)).
Proof.
  intros Hqubits.
  assert (forall e,
             __validate job = Raise e ->
             (shots (config job) < 1
              /\ e = QisKitBackendError (invalid_shots_message (shots (config job))))
             \/ exists experiment,
                  In experiment (experiments job) /\ experiment_error experiment e)
    as Hraise.
  { intros e. unfold __validate, __validate_number_of_shots.
    destruct (Z.ltb_spec (shots (config job)) 1) as [Hlt | Hge]; simpl.
    - intros [= <-]. left. auto.
    - pose proof (validate_experiments_spec (experiments job) Hqubits) as Hexps.
      intros Heq. rewrite Heq in Hexps. right. exact Hexps. }
  assert (__validate job = Ok tt
          <-> 1 <= shots (config job) /\ Forall valid_experiment (experiments job))
    as Hok.
  { unfold __validate, __validate_number_of_shots.
    pose proof (validate_experiments_spec (experiments job) Hqubits) as Hexps.
    destruct (Z.ltb_spec (shots (config job)) 1) as [Hlt | Hge]; simpl.
    - split; [discriminate | lia].
    - match type of Hexps with match ?r with _ => _ end => destruct r as [[] | e] end.
      + split; auto.
      + split; [discriminate | ]. intros [_ Hall].
        destruct Hexps as (x & Hin & Herr).
        rewrite Forall_forall in Hall. destruct (Hall x Hin) as [Hslots Hgate].
        destruct Herr as [[Hlt _] | [Hg _]]; [lia | contradiction]. }
  split; [exact Hok | ].
  split; [ | split; [exact Hraise | split]].
  - split.
    + intros [e He]. destruct (Hraise e He) as [[Hlt _] | (x & Hin & Herr)].
      * now left.
      * right. exists x. split; [exact Hin | ].
        destruct Herr as [[Hlt _] | [Hg _]]; auto.
    + intros Hbad. destruct (__validate job) as [[] | e] eqn:Hv; [ | eauto].
      exfalso. destruct (proj1 Hok eq_refl) as [Hshots Hall].
      rewrite Forall_forall in Hall.
      destruct Hbad as [Hlt | (x & Hin & Hx)]; [lia | ].
      destruct (Hall x Hin) as [Hslots Hgate]. destruct Hx; [lia | contradiction].
  - intros P identifier project_id e He. unfold run. now rewrite He.
  - intros P identifier project_id Hv. unfold run. rewrite Hv.
    generalize (create_project ("qi-sdk-project-" ++ identifier) (shots (config job))).
    intros first.
    assert (forall exps calls,
               exists rest r,
                 submit_experiments P exps (shots (config job)) (first :: calls)
                 = (first :: rest, r)) as Hsub.
    { induction exps as [ | x exps IH]; intros calls; simpl; [eauto | ].
      destruct (_submit_experiment P x (shots (config job))) as [call | e]; [ | eauto].
      apply (IH (calls ++ [call])%list). }
    destruct (Hsub (experiments job) []) as (rest & r & ->).
    destruct r as [[] | e]; eauto.
Qed.

(** ** The measurement map *)

Lemma py_getitem_first {A : Type} (l : list A) (d : A) :
  l <> [] -> py_getitem l 0 = Ok (hd d l).
Proof.
  destruct l as [ | x l]; [congruence | intros _].
  unfold py_getitem. cbn [List.length hd].
  change (0 <? 0) with false. cbv iota.
  destruct (Z.ltb_spec 0 (Z.of_nat (S (List.length l)))) as [_ | H]; [reflexivity | lia].
Qed.

Lemma comprehension_measurements (number_of_qubits number_of_clbits : Z)
  (measures : list Instruction) :
  (forall m, In m measures -> qubits m <> [] /\ memory m <> []) ->
  comprehension (measurement_of number_of_qubits number_of_clbits) measures
  = Ok (map (stored_pair number_of_qubits number_of_clbits) measures).
Proof.
  induction measures as [ | m measures IH]; intros Hwf; simpl; [reflexivity | ].
  destruct (Hwf m (or_introl eq_refl)) as [Hq Hc].
  unfold measurement_of at 1.
  rewrite (getattr_qubits_nonempty _ Hq). cbn [bind].
  rewrite (py_getitem_first _ 0 Hq), (py_getitem_first _ 0 Hc). simpl.
  rewrite IH by (intros; apply Hwf; now right). reflexivity.
Qed.

Lemma range_spec (n : Z) :
  List.length (range n) = Z.to_nat n
  /\ forall k, (k < Z.to_nat n)%nat -> nth_error (range n) k = Some (Z.of_nat k).
Proof.
  unfold range. split.
  - now rewrite length_map, length_seq.
  - intros k Hk. rewrite nth_error_map.
    rewrite (nth_error_nth' _ 0%nat) by now rewrite length_seq.
    rewrite seq_nth by exact Hk. reflexivity.
Qed.

(** C6, as the code has it.  Without any [measure] instruction the map is
    the identity on the positions below the declared number of qubits.
    Otherwise it holds one pair per [measure] instruction, in order, and the
    pair is not (qubit index, classical bit index) but the two positions
    counted from the most significant end: (n_qubits - 1 - qubit index,
    memory_slots - 1 - classical bit index).  In both cases the declared number
    of classical bits is returned with it. *)
Theorem collect_measurements_spec (experiment : QobjExperiment) :
  let number_of_qubits := n_qubits (header experiment) in
  let number_of_clbits := memory_slots (header experiment) in
  let measures := filter is_measure (instructions experiment) in
  (measures = [] ->
   _collect_measurements experiment
   = Ok {| measurements := map (fun index => (index, index)) (range number_of_qubits);
           number_of_clbits := number_of_clbits |})
  /\ (measures <> [] ->
      (forall m, In m measures -> qubits m <> [] /\ memory m <> []) ->
      _collect_measurements experiment
      = Ok {| measurements := map (stored_pair number_of_qubits number_of_clbits) measures;
              number_of_clbits := number_of_clbits |})
  /\ List.length (range number_of_qubits) = Z.to_nat number_of_qubits
  /\ (forall k, (k < Z.to_nat number_of_qubits)%nat ->
                nth_error (range number_of_qubits) k = Some (Z.of_nat k)).
Proof.
  intros nq nc measures. split; [ | split; [ | apply range_spec]].
  - intros Hnone. unfold _collect_measurements. fold measures. rewrite Hnone.
    reflexivity.
  - intros Hsome Hwf. unfold _collect_measurements. fold measures nq nc.
    rewrite (comprehension_measurements nq nc measures Hwf). simpl.
    destruct measures; [congruence | reflexivity].
Qed.

(** C6 as stated fails: for the experiment on two qubits and two classical
    bits that measures qubit 0 into classical bit 0, the map holds the pair
    (1, 1) and not the pair (0, 0) of the two indices. *)
Lemma collect_measurements_cex :
  let measure_q0_c0 :=
    {| name := "measure"; qubits_attribute := Some [0]; memory := [0]; params := [];
       conditional := None |} in
  let experiment :=
    {| header := {| n_qubits := 2; memory_slots := 2; header_name := "circuit0";
                    creg_sizes := [("c", 2)] |};
       instructions := [measure_q0_c0] |} in
  _collect_measurements experiment
  = Ok {| measurements := [(1, 1)]; number_of_clbits := 2 |}
  /\ _collect_measurements experiment
     <> Ok {| measurements := map (fun m => (hd 0 (qubits m), hd 0 (memory m)))
                                  (filter is_measure (instructions experiment));
              number_of_clbits := 2 |}.
Proof. split; [reflexivity | discriminate]. Qed.

(** ** Which exceptions the conversions can raise *)

Create HintDb nbe.

Lemma nbe_Ok {A : Type} (a : A) : no_backend_error (Ok a).
Proof. intros msg. discriminate. Qed.

Lemma nbe_IndexError {A : Type} : no_backend_error (@Raise A IndexError).
Proof. intros msg. discriminate. Qed.

Lemma nbe_ValueError {A : Type} : no_backend_error (@Raise A ValueError).
Proof. intros msg. discriminate. Qed.

Lemma nbe_KeyError {A : Type} (k : string) : no_backend_error (@Raise A (KeyError k)).
Proof. intros msg. discriminate. Qed.

Lemma nbe_AttributeError {A : Type} (a : string) :
  no_backend_error (@Raise A (AttributeError a)).
Proof. intros msg. discriminate. Qed.

Lemma nbe_bind {A B : Type} (r : result A) (k : A -> result B) :
  no_backend_error r -> (forall a, no_backend_error (k a)) -> no_backend_error (bind r k).
Proof.
  intros Hr Hk msg. destruct r as [a | e]; simpl; [apply Hk | ].
  intros [= ->]. now apply (Hr msg).
Qed.

Lemma nbe_for_each {A S : Type} (body : S -> A -> result S) (xs : list A) (acc : S) :
  (forall s x, no_backend_error (body s x)) -> no_backend_error (for_each body xs acc).
Proof.
  intros Hbody. revert acc.
  induction xs as [ | x xs IH]; intros acc; simpl; [apply nbe_Ok | ].
  apply nbe_bind; [apply Hbody | exact IH].
Qed.

Lemma nbe_comprehension {A B : Type} (f : A -> result B) (xs : list A) :
  (forall x, no_backend_error (f x)) -> no_backend_error (comprehension f xs).
Proof.
  intros Hf. induction xs as [ | x xs IH]; simpl; [apply nbe_Ok | ].
  apply nbe_bind; [apply Hf | intros y].
  apply nbe_bind; [exact IH | intros ys; apply nbe_Ok].
Qed.

#[local] Hint Resolve nbe_Ok nbe_IndexError nbe_ValueError nbe_KeyError
  nbe_AttributeError : nbe.
#[local] Hint Resolve nbe_bind nbe_for_each nbe_comprehension : nbe.

Lemma nbe_py_getitem {A : Type} (l : list A) (i : Z) : no_backend_error (py_getitem l i).
Proof.
  unfold py_getitem.
  destruct (_ && _); [destruct (nth_error _ _) | ]; auto with nbe.
Qed.

Lemma nbe_py_setitem {A : Type} (l : list A) (i : Z) (x : A) :
  no_backend_error (py_setitem l i x).
Proof. unfold py_setitem. destruct (_ && _); auto with nbe. Qed.

Lemma nbe_int_base2 (s : list ascii) : no_backend_error (int_base2 s).
Proof.
  assert (forall acc, no_backend_error (int_base2_from acc s)) as H.
  { induction s as [ | c s IH]; intros acc; simpl; [auto with nbe | ].
    destruct (Ascii.eqb c "0"); [apply IH | ].
    destruct (Ascii.eqb c "1"); [apply IH | auto with nbe]. }
  unfold int_base2. destruct s; [auto with nbe | apply H].
Qed.

Lemma nbe_int_base16 (s : string) : no_backend_error (int_base16 s).
Proof.
  unfold int_base16.
  destruct (HexadecimalString.NilZero.uint_of_string _); auto with nbe.
Qed.

#[local] Hint Resolve nbe_py_getitem nbe_py_setitem nbe_int_base2 nbe_int_base16 : nbe.

Lemma nbe_qubit_to_classical_hex (qubit_register : N) (m : Measurements) (nq : nat) :
  no_backend_error (__qubit_to_classical_hex qubit_register m nq).
Proof.
  unfold __qubit_to_classical_hex.
  apply nbe_bind; [ | intros cs; auto with nbe].
  apply nbe_for_each. intros cs [q c]. auto with nbe.
Qed.

Lemma nbe_sorted_by_hex_key {V : Type} (items : list (string * V)) :
  no_backend_error (sorted_by_key hex_key items).
Proof.
  unfold sorted_by_key, hex_key.
  apply nbe_bind; [ | auto with nbe].
  apply nbe_comprehension. intros kv. auto with nbe.
Qed.

Lemma nbe_getitem_histogram (res : Result) : no_backend_error (getitem_histogram res).
Proof. unfold getitem_histogram. destruct (histogram res); auto with nbe. Qed.

#[local] Hint Resolve nbe_qubit_to_classical_hex nbe_sorted_by_hex_key
  nbe_getitem_histogram : nbe.

Lemma nbe_add_probability (m : Measurements) (nq : nat) (out : list (string * float))
  (entry : N * float) :
  no_backend_error (add_probability m nq out entry).
Proof. destruct entry as [k p]. unfold add_probability. auto with nbe. Qed.

Lemma nbe_append_shot (m : Measurements) (nq : nat) (memory_data : list string) (k : N) :
  no_backend_error (append_shot m nq memory_data k).
Proof. unfold append_shot. auto with nbe. Qed.

#[local] Hint Resolve nbe_add_probability nbe_append_shot : nbe.

Lemma nbe_convert_histogram (order : AttributeOrder) (res : Result) (m : Measurements) :
  no_backend_error (__convert_histogram order res m).
Proof. unfold __convert_histogram. auto 8 with nbe. Qed.

Lemma nbe_single_shot_loop (prob : float) (m : Measurements) (nq : nat) (sum : float)
  (items : list (N * float)) :
  no_backend_error (single_shot_loop prob m nq sum items).
Proof.
  revert sum. induction items as [ | [k p] items IH]; intros sum; simpl;
    [auto with nbe | ].
  destruct (_ <? _)%float; [auto with nbe | apply IH].
Qed.

Lemma nbe_convert_result_data (order : AttributeOrder) (api : QuantumInspireApi)
  (res : Result) (m : Measurements) (rng : RandomState) :
  no_backend_error (__convert_result_data order api res m rng).
Proof.
  unfold __convert_result_data.
  apply nbe_bind.
  - destruct (get_raw_data api _) as [ | x raw].
    + apply nbe_bind; [auto with nbe | intros h]. simpl.
      apply nbe_bind; [apply nbe_single_shot_loop | intros [hd md]; auto with nbe].
    + auto 6 with nbe.
  - intros [[hd md] rng']. auto with nbe.
Qed.

#[local] Hint Resolve nbe_convert_histogram nbe_convert_result_data : nbe.

(** ** Experiment results *)

Lemma histogram_is_empty_iff (res : Result) :
  histogram_is_empty res = true <-> histogram res = None \/ histogram res = Some [].
Proof.
  unfold histogram_is_empty. destruct (histogram res) as [[ | x h] | ].
  - split; auto.
  - split; [discriminate | intros [H | H]; discriminate].
  - split; auto.
Qed.

Lemma results_and_jobs_map (api : QuantumInspireApi) (jobs : list Job) :
  results_and_jobs api jobs = map (fun job => (get api (job_results job), job)) jobs.
Proof.
  unfold results_and_jobs. induction jobs as [ | job jobs IH]; simpl; [reflexivity | ].
  now rewrite IH.
Qed.

Lemma results_and_jobs_app (api : QuantumInspireApi) (before after : list Job) :
  results_and_jobs api (before ++ after)
  = (results_and_jobs api before ++ results_and_jobs api after)%list.
Proof. rewrite !results_and_jobs_map. apply map_app. Qed.

Lemma experiment_result_no_histogram (order : AttributeOrder)
  (api : QuantumInspireApi) (res : Result) (job : Job)
  (rng : RandomState) :
  histogram_is_empty res = true ->
  experiment_result order api res job rng = Raise (QisKitBackendError (no_histogram_message res)).
Proof. intros H. unfold experiment_result. now rewrite H. Qed.

Lemma nbe_experiment_result (order : AttributeOrder)
  (api : QuantumInspireApi) (res : Result) (job : Job)
  (rng : RandomState) :
  histogram_is_empty res = false -> no_backend_error (experiment_result order api res job rng).
Proof.
  intros H. unfold experiment_result. rewrite H.
  apply nbe_bind; [auto with nbe | intros [[h md] rng']].
  apply nbe_bind; [auto with nbe | intros fs; auto with nbe].
Qed.

(** C5.  A result whose histogram is missing or empty makes
    [get_experiment_results] raise [QisKitBackendError]; the message is the
    text on missing histogram data followed by the [raw_text] of that result,
    and no list of experiment results is returned.  A result with a histogram
    that is not empty never raises that error. *)
Theorem missing_histogram_error (order : AttributeOrder) (api : QuantumInspireApi) (job_id : string)
  (rng : RandomState) :
  let jobs := get_jobs_from_project api job_id in
  (forall res job rng0,
      histogram res = None \/ histogram res = Some [] ->
      experiment_result order api res job rng0
      = Raise (QisKitBackendError
                 ("Result from backend contains no histogram data!" ++ nl
                  ++ format_optional (raw_text res))))
  /\ (forall before job after done rng0,
         jobs = (before ++ job :: after)%list ->
         for_each (append_experiment_result order api) (results_and_jobs api before) ([], rng)
         = Ok (done, rng0) ->
         histogram (get api (job_results job)) = None
         \/ histogram (get api (job_results job)) = Some [] ->
         get_experiment_results order api job_id rng
         = Raise (QisKitBackendError
                    ("Result from backend contains no histogram data!" ++ nl
                     ++ format_optional (raw_text (get api (job_results job))))))
  /\ (forall res job rng0 entry entries,
         histogram res = Some (entry :: entries) ->
         no_backend_error (experiment_result order api res job rng0))
  /\ ((forall job, In job jobs ->
                   exists entry entries,
                     histogram (get api (job_results job)) = Some (entry :: entries)) ->
      no_backend_error (get_experiment_results order api job_id rng)).
Proof.
  intros jobs. repeat split.
  - intros res job rng0 H. apply histogram_is_empty_iff in H.
    now apply experiment_result_no_histogram.
  - intros before job after done rng0 Hjobs Hbefore H.
    apply histogram_is_empty_iff in H.
    unfold get_experiment_results. fold jobs. rewrite Hjobs.
    rewrite results_and_jobs_app, for_each_app, Hbefore. simpl.
    rewrite (experiment_result_no_histogram _ _ _ _ _ H). reflexivity.
  - intros res job rng0 entry entries H. apply nbe_experiment_result.
    unfold histogram_is_empty. now rewrite H.
  - intros Hall. unfold get_experiment_results. fold jobs.
    rewrite results_and_jobs_map.
    generalize (@nil ExperimentResult, rng) as state.
    induction jobs as [ | job jobs' IH]; intros state; simpl; [apply nbe_Ok | ].
    apply nbe_bind.
    + destruct state as [ers rng0]. unfold append_experiment_result.
      apply nbe_bind; [ | intros [er rng1]; apply nbe_Ok].
      destruct (Hall job (or_introl eq_refl)) as (entry & entries & H).
      apply nbe_experiment_result. unfold histogram_is_empty. now rewrite H.
    + intros state'. apply IH. intros j Hj. apply Hall. now right.
Qed.

Lemma experiment_result_fields (order : AttributeOrder)
  (api : QuantumInspireApi) (job : Job) (rng rng' : RandomState)
  (er : ExperimentResult) :
  experiment_result order api (get api (job_results job)) job rng = Ok (er, rng') ->
  fixed_fields er /\ copied_fields api job er.
Proof.
  unfold experiment_result.
  destruct (histogram_is_empty _); [discriminate | ].
  intros H. apply bind_Ok in H as ([[h md] rng1] & _ & H).
  apply bind_Ok in H as (fs & _ & H). injection H as <- <-.
  unfold fixed_fields, copied_fields. simpl. repeat split.
Qed.

Lemma results_loop_fields (order : AttributeOrder) (api : QuantumInspireApi) (jobs : list Job)
  (done ers : list ExperimentResult) (rng rng' : RandomState) :
  for_each (append_experiment_result order api) (results_and_jobs api jobs) (done, rng)
  = Ok (ers, rng') ->
  exists new,
    ers = (done ++ new)%list
    /\ Forall fixed_fields new
    /\ Forall2 (copied_fields api) jobs new.
Proof.
  rewrite results_and_jobs_map. revert done rng.
  induction jobs as [ | job jobs IH]; intros done rng; simpl.
  - intros [= <- <-]. exists []. rewrite app_nil_r. repeat split; constructor.
  - intros H. apply bind_Ok in H as ([done1 rng1] & Hstep & Hrest).
    apply bind_Ok in Hstep as ([er rng2] & Her & Hstep). injection Hstep as <- <-.
    apply IH in Hrest as (new & -> & Hfixed & Hcopied).
    apply experiment_result_fields in Her as [Hf Hc].
    exists (er :: new). rewrite <- app_assoc. repeat split; constructor; assumption.
Qed.

(** C10.  Every experiment result returned by [get_experiment_results] has
    [success] true, [status] DONE and [seed] 42, whatever the jobs and the
    results of the provider hold; there is one experiment result per job, in
    order, whose name, shots, time taken and header are copied from the job
    and its result. *)
Theorem experiment_results_fixed_fields (order : AttributeOrder)
  (api : QuantumInspireApi) (job_id : string)
  (rng rng' : RandomState) (ers : list ExperimentResult) :
  get_experiment_results order api job_id rng = Ok (ers, rng') ->
  Forall (fun er => er_success er = true /\ er_status er = "DONE" /\ er_seed er = 42) ers
  /\ Forall2 (copied_fields api) (get_jobs_from_project api job_id) ers.
Proof.
  unfold get_experiment_results. intros H.
  apply results_loop_fields in H as (new & -> & Hfixed & Hcopied). simpl.
  split; assumption.
Qed.

(** ** Hexadecimal keys *)

Lemma int_base16_hex (n : N) : int_base16 (hex n) = Ok n.
Proof.
  unfold hex, int_base16. cbn [append].
  assert (N.to_hex_uint n <> Hexadecimal.Nil) as Hnonnil.
  { destruct n as [ | p]; [discriminate | apply HexadecimalPos.Unsigned.to_uint_nonnil]. }
  rewrite (HexadecimalString.NilZero.usu _ Hnonnil).
  now rewrite HexadecimalN.Unsigned.of_to.
Qed.

Lemma hex_inj (a b : N) : hex a = hex b -> a = b.
Proof.
  intros H. assert (int_base16 (hex a) = int_base16 (hex b)) as Heq by now rewrite H.
  rewrite !int_base16_hex in Heq. now injection Heq.
Qed.

Lemma qubit_to_classical_hex_is_hex (k : N) (m : Measurements) (nq : nat) (key : string) :
  __qubit_to_classical_hex k m nq = Ok key -> is_hex key.
Proof.
  unfold __qubit_to_classical_hex. intros H.
  apply bind_Ok in H as (cs & _ & H). apply bind_Ok in H as (n & _ & H).
  injection H as <-. now exists n.
Qed.

(** ** Dictionaries: keys *)

Lemma good_keys_nil {V : Type} (P : string -> Prop) : good_keys P (@nil (string * V)).
Proof. split; constructor. Qed.

Lemma dict_set_keys {V : Type} (d : list (string * V)) (k : string) (v : V) (k' : string) :
  In k' (map fst (dict_set d k v)) -> k' = k \/ In k' (map fst d).
Proof.
  induction d as [ | [k0 v0] d IH]; simpl.
  - intros [<- | []]. now left.
  - destruct (String.eqb_spec k k0) as [-> | Hne]; simpl.
    + intros [<- | H]; auto.
    + intros [<- | H]; [auto | ]. destruct (IH H); auto.
Qed.

Lemma dict_set_good_keys {V : Type} (P : string -> Prop) (d : list (string * V))
  (k : string) (v : V) :
  good_keys P d -> P k -> good_keys P (dict_set d k v).
Proof.
  unfold good_keys. intros [Hnd Hall] Hk.
  induction d as [ | [k0 v0] d IH]; simpl.
  - split; repeat constructor; auto.
  - simpl in Hnd, Hall. inversion Hnd as [ | ? ? Hnotin Hnd']; subst.
    inversion Hall as [ | ? ? Hk0 Hall']; subst.
    destruct (String.eqb_spec k k0) as [-> | Hne]; simpl.
    + split; constructor; assumption.
    + destruct (IH Hnd' Hall') as [IHnd IHall].
      split; constructor; try assumption.
      intros Hin. apply dict_set_keys in Hin as [-> | Hin]; [congruence | contradiction].
Qed.

(** ** Sorting by key *)

Lemma insert_by_key_perm {A : Type} (k : N) (x : A) (l : list (N * A)) :
  Permutation ((k, x) :: l) (insert_by_key k x l).
Proof.
  induction l as [ | [k' y] l IH]; simpl; [reflexivity | ].
  destruct (k <=? k')%N; [reflexivity | ].
  rewrite perm_swap. now constructor.
Qed.

Lemma sort_keyed_perm {A : Type} (l : list (N * A)) : Permutation l (sort_keyed l).
Proof.
  induction l as [ | [k x] l IH]; simpl; [constructor | ].
  rewrite <- insert_by_key_perm. now constructor.
Qed.

Lemma insert_by_key_sorted {A : Type} (k : N) (x : A) (l : list (N * A)) :
  StronglySorted key_le l -> StronglySorted key_le (insert_by_key k x l).
Proof.
  induction 1 as [ | [k' y] l Hsorted IH Hall]; simpl.
  - repeat constructor.
  - destruct (N.leb_spec k k') as [Hle | Hgt].
    + constructor; [now constructor | ].
      constructor; [exact Hle | ].
      eapply Forall_impl; [ | exact Hall].
      intros [k'' z]. unfold key_le. simpl. lia.
    + constructor; [exact IH | ].
      eapply Permutation_Forall; [apply insert_by_key_perm | ].
      constructor; [unfold key_le; simpl; lia | exact Hall].
Qed.

Lemma sort_keyed_sorted {A : Type} (l : list (N * A)) : StronglySorted key_le (sort_keyed l).
Proof.
  induction l as [ | [k x] l IH]; simpl; [constructor | ].
  now apply insert_by_key_sorted.
Qed.

Lemma StronglySorted_consecutive {A : Type} (R : A -> A -> Prop) (before after : list A)
  (x y : A) :
  StronglySorted R (before ++ x :: y :: after) -> R x y.
Proof.
  induction before as [ | b before IH]; simpl; intros H.
  - apply StronglySorted_inv in H as [_ Hall]. now inversion Hall.
  - apply StronglySorted_inv in H as [H _]. now apply IH.
Qed.

(** The keys computed by [sorted]: the list of the items with their keys. *)
Lemma comprehension_keys {A : Type} (key : A -> result N) (l : list A)
  (keyed : list (N * A)) :
  comprehension (fun x => k <- key x ;; Ok (k, x)) l = Ok keyed ->
  map snd keyed = l /\ Forall (fun kx => key (snd kx) = Ok (fst kx)) keyed.
Proof.
  revert keyed. induction l as [ | x l IH]; simpl; intros keyed H.
  - injection H as <-. split; constructor.
  - apply bind_Ok in H as ([k x'] & Hk & H).
    apply bind_Ok in Hk as (k0 & Hkey & Hk). injection Hk as <- <-.
    apply bind_Ok in H as (rest & Hrest & H). injection H as <-.
    destruct (IH rest Hrest) as [Hmap Hall]. simpl.
    split; [now rewrite Hmap | constructor; assumption].
Qed.

Lemma sorted_by_key_spec {A : Type} (key : A -> result N) (l sorted : list A) :
  sorted_by_key key l = Ok sorted ->
  exists keyed,
    sorted = map snd keyed
    /\ Permutation l sorted
    /\ StronglySorted key_le keyed
    /\ Forall (fun kx => key (snd kx) = Ok (fst kx)) keyed.
Proof.
  unfold sorted_by_key. intros H.
  apply bind_Ok in H as (keyed & Hkeyed & H). injection H as <-.
  apply comprehension_keys in Hkeyed as [Hmap Hall].
  exists (sort_keyed keyed). split; [reflexivity | ].
  split; [rewrite <- Hmap; apply Permutation_map, sort_keyed_perm | ].
  split; [apply sort_keyed_sorted | ].
  eapply Permutation_Forall; [apply sort_keyed_perm | exact Hall].
Qed.

Lemma good_keys_perm {V : Type} (P : string -> Prop) (d d' : list (string * V)) :
  Permutation d d' -> good_keys P d -> good_keys P d'.
Proof.
  intros Hperm [Hnd Hall].
  assert (Permutation (map fst d) (map fst d')) as Hkeys by now apply Permutation_map.
  split.
  - eapply Permutation_NoDup; eassumption.
  - eapply Permutation_Forall; eassumption.
Qed.

Lemma sorted_by_hex_key_ascending {V : Type} (d sorted : list (string * V)) :
  good_keys is_hex d ->
  sorted_by_key hex_key d = Ok sorted ->
  ascending_hex_keys sorted /\ Permutation d sorted.
Proof.
  intros Hgood H.
  apply sorted_by_key_spec in H as (keyed & -> & Hperm & Hsorted & Hkeys).
  split; [ | exact Hperm].
  destruct (good_keys_perm _ _ _ Hperm Hgood) as [Hnd Hhex].
  intros before k1 v1 k2 v2 after Heq.
  apply map_eq_app in Heq as (kb & krest & -> & <- & Hrest).
  apply map_eq_cons in Hrest as ([n1 kv1] & krest1 & -> & Hkv1 & Hrest).
  apply map_eq_cons in Hrest as ([n2 kv2] & ka & -> & Hkv2 & <-).
  simpl in Hkv1, Hkv2. subst kv1 kv2.
  assert (int_base16 k1 = Ok n1 /\ int_base16 k2 = Ok n2) as [Hn1 Hn2].
  { rewrite Forall_app in Hkeys. destruct Hkeys as [_ Hkeys].
    inversion Hkeys as [ | ? ? H1 Hkeys']; subst.
    inversion Hkeys' as [ | ? ? H2 _]; subst. split; assumption. }
  exists n1, n2. split; [exact Hn1 | split; [exact Hn2 | ]].
  assert (n1 <= n2)%N as Hle
      by exact (StronglySorted_consecutive key_le _ _ _ _ Hsorted).
  assert (k1 <> k2) as Hne.
  { rewrite !map_app in Hnd. simpl in Hnd.
    apply NoDup_app_remove_l in Hnd. inversion Hnd as [ | ? ? Hnotin _]; subst.
    intros ->. apply Hnotin. now left. }
  assert (is_hex k1 /\ is_hex k2) as [[a ->] [b ->]].
  { rewrite !map_app in Hhex. simpl in Hhex.
    rewrite Forall_app in Hhex. destruct Hhex as [_ Hhex].
    inversion Hhex as [ | ? ? H1 Hhex']; subst.
    inversion Hhex' as [ | ? ? H2 _]; subst. split; assumption. }
  rewrite int_base16_hex in Hn1, Hn2. injection Hn1 as ->. injection Hn2 as ->.
  assert (n1 <> n2) by congruence. lia.
Qed.

(** [sorted] does not raise on keys printed by [hex]. *)
Lemma sorted_by_hex_key_returns {V : Type} (d : list (string * V)) :
  Forall is_hex (map fst d) -> exists sorted, sorted_by_key hex_key d = Ok sorted.
Proof.
  intros Hhex. unfold sorted_by_key.
  assert (exists keyed,
             comprehension (fun x => k <- hex_key x ;; Ok (k, x)) d = Ok keyed)
    as [keyed ->].
  { induction d as [ | [k v] d IH]; simpl; [eauto | ].
    simpl in Hhex. inversion Hhex as [ | ? ? [n ->] Hhex']; subst.
    destruct (IH Hhex') as [keyed ->].
    unfold hex_key at 1. simpl. rewrite int_base16_hex. simpl. eauto. }
  simpl. eauto.
Qed.

(** ** The loops that fill the histograms *)

Lemma add_probability_good_keys (m : Measurements) (nq : nat) (h : list (N * float))
  (out out' : list (string * float)) :
  good_keys is_hex out ->
  for_each (add_probability m nq) h out = Ok out' ->
  good_keys is_hex out'.
Proof.
  revert out. induction h as [ | [k p] h IH]; simpl; intros out Hgood H.
  - now injection H as <-.
  - apply bind_Ok in H as (out1 & Hstep & H).
    apply bind_Ok in Hstep as (key & Hkey & Hstep). injection Hstep as <-.
    apply (IH _ (dict_set_good_keys _ _ _ _ Hgood
                   (qubit_to_classical_hex_is_hex _ _ _ _ Hkey)) H).
Qed.

Lemma memory_data_is_hex (m : Measurements) (nq : nat) (raw_data : list N)
  (memory_data memory_data' : list string) :
  Forall is_hex memory_data ->
  for_each (append_shot m nq) raw_data memory_data = Ok memory_data' ->
  Forall is_hex memory_data'.
Proof.
  revert memory_data. induction raw_data as [ | k raw IH]; simpl; intros md Hmd H.
  - now injection H as <-.
  - apply bind_Ok in H as (md1 & Hstep & H).
    apply bind_Ok in Hstep as (key & Hkey & Hstep). injection Hstep as <-.
    apply (IH _ (proj2 (Forall_app _ _ _)
                   (conj Hmd (Forall_cons _ (qubit_to_classical_hex_is_hex _ _ _ _ Hkey)
                                          (Forall_nil _)))) H).
Qed.

Lemma Counter_good_keys (P : string -> Prop) (xs : list string) :
  Forall P xs -> good_keys P (Counter xs).
Proof.
  unfold Counter. generalize (@nil (string * Z)) (good_keys_nil (V := Z) P).
  induction xs as [ | x xs IH]; simpl; intros d Hd Hxs; [exact Hd | ].
  inversion Hxs as [ | ? ? Hx Hxs']; subst.
  apply IH; [ | exact Hxs']. now apply dict_set_good_keys.
Qed.

Lemma fold_dict_set_good_keys {V : Type} (P : string -> Prop) (items d : list (string * V)) :
  Forall P (map fst items) ->
  good_keys P d ->
  good_keys P (fold_left (fun d '(elem, count) => dict_set d elem count) items d).
Proof.
  revert d. induction items as [ | [k v] items IH]; simpl; intros d Hitems Hd;
    [exact Hd | ].
  inversion Hitems as [ | ? ? Hk Hitems']; subst.
  apply IH; [exact Hitems' | ]. now apply dict_set_good_keys.
Qed.

Lemma single_shot_loop_good_keys (prob : float) (m : Measurements) (nq : nat) (sum : float)
  (h : list (N * float)) (histogram_data : list (string * Z)) (memory_data : list string) :
  single_shot_loop prob m nq sum h = Ok (histogram_data, memory_data) ->
  good_keys is_hex histogram_data.
Proof.
  revert sum. induction h as [ | [k p] h IH]; simpl; intros sum H.
  - injection H as <- _. apply good_keys_nil.
  - destruct (prob <? sum + p)%float; [ | now apply (IH _ H)].
    apply bind_Ok in H as (key & Hkey & H). injection H as <- _.
    apply (dict_set_good_keys is_hex [] key 1 (good_keys_nil _)).
    now apply (qubit_to_classical_hex_is_hex _ _ _ _ Hkey).
Qed.

Lemma Obj_from_dict_perm {V : Type} (order : AttributeOrder) (d : list (string * V)) :
  Permutation d (Obj_from_dict order d).
Proof. apply attribute_order_perm. Qed.

Lemma Obj_from_dict_nil {V : Type} (order : AttributeOrder) :
  Obj_from_dict order (@nil (string * V)) = [].
Proof. apply Permutation_nil, Obj_from_dict_perm. Qed.

(** What [__convert_histogram] returns: the dictionary filled by the loop,
    sorted, as [Obj.from_dict] lists it. *)
Lemma convert_histogram_Ok (order : AttributeOrder) (res : Result) (m : Measurements)
  (h : list (N * float)) (probabilities : list (string * float)) :
  histogram res = Some h ->
  __convert_histogram order res m = Ok probabilities ->
  exists out sorted,
    for_each (add_probability m (number_of_qubits res)) h [] = Ok out
    /\ sorted_by_key hex_key out = Ok sorted
    /\ probabilities = Obj_from_dict order sorted.
Proof.
  intros Hh H. unfold __convert_histogram, getitem_histogram in H.
  rewrite Hh in H. cbn [bind] in H.
  apply bind_Ok in H as (out & Hloop & H).
  apply bind_Ok in H as (sorted & Hsorted & H). injection H as <-.
  exists out, sorted. auto.
Qed.

(** The dictionaries that are sorted at the end of [__convert_histogram]
    and of [__convert_result_data] come out of [sorted] in ascending order of
    their keys, with the items they had. *)
Lemma histograms_sorted_before_from_dict (order : AttributeOrder) (api : QuantumInspireApi)
  (res : Result) (m : Measurements) (rng : RandomState) :
  (forall probabilities,
      __convert_histogram order res m = Ok probabilities ->
      exists out sorted,
        sorted_by_key hex_key out = Ok sorted
        /\ Permutation out sorted
        /\ ascending_hex_keys sorted
        /\ probabilities = Obj_from_dict order sorted)
  /\ (forall counts memory_data rng',
         __convert_result_data order api res m rng = Ok (counts, memory_data, rng') ->
         exists histogram_data sorted,
           sorted_by_key hex_key histogram_data = Ok sorted
           /\ Permutation histogram_data sorted
           /\ ascending_hex_keys sorted
           /\ counts = Obj_from_dict order sorted).
Proof.
  split.
  - intros probabilities H. unfold __convert_histogram in H.
    apply bind_Ok in H as (h & _ & H). apply bind_Ok in H as (d & Hloop & H).
    apply bind_Ok in H as (sorted & Hsorted & H). injection H as <-.
    exists d, sorted.
    destruct (sorted_by_hex_key_ascending d sorted) as [Hasc Hperm]; [ | exact Hsorted | auto].
    exact (add_probability_good_keys _ _ _ _ _ (good_keys_nil _) Hloop).
  - intros counts memory_data rng' H. unfold __convert_result_data in H.
    apply bind_Ok in H as ([[hd md] rng1] & Hdata & H).
    apply bind_Ok in H as (sorted & Hsorted & H). injection H as <- _ _.
    exists hd, sorted.
    destruct (sorted_by_hex_key_ascending hd sorted) as [Hasc Hperm]; [ | exact Hsorted | auto].
    destruct (get_raw_data api _) as [ | k raw].
    + apply bind_Ok in Hdata as (h & _ & Hdata). simpl in Hdata.
      apply bind_Ok in Hdata as ([hd' md'] & Hloop & Hdata). injection Hdata as <- _ _.
      exact (single_shot_loop_good_keys _ _ _ _ _ _ _ Hloop).
    + apply bind_Ok in Hdata as (md' & Hloop & Hdata). injection Hdata as <- _ _.
      apply fold_dict_set_good_keys; [ | apply good_keys_nil].
      pose proof (memory_data_is_hex _ _ _ _ _ (Forall_nil _) Hloop) as Hmd.
      exact (proj2 (Counter_good_keys is_hex md' Hmd)).
Qed.

(** C4, as the code has it.  The two histograms are sorted by the numeric
    value of their hexadecimal keys, and the sorted dictionary is then given
    to [Obj.from_dict], which does not keep it in order: what is returned
    lists the items in the order of the attributes of the object.  For the
    result of the registers 2, 10 and 16, with the attributes in the opposite
    order, the keys of the probability histogram and of the count histogram
    that are returned are 0x10, 0xa, 0x2, which is not ascending. *)
Theorem returned_histograms_lose_the_order :
  __convert_histogram reverse_order wide_result identity_map_5
  = Ok [("0x10", 0.5%float); ("0xa", 0.25%float); ("0x2", 0.25%float)]
  /\ ~ ascending_hex_keys [("0x10", 0.5%float); ("0xa", 0.25%float); ("0x2", 0.25%float)]
  /\ __convert_result_data reverse_order wide_api wide_result identity_map_5
       (constant_rng 0.25%float)
     = Ok ([("0x10", 2); ("0xa", 1); ("0x2", 1)], ["0x10"; "0x2"; "0xa"; "0x10"],
           constant_rng 0.25%float)
  /\ ~ ascending_hex_keys [("0x10", 2); ("0xa", 1); ("0x2", 1)]
  /\ sorted_by_key hex_key [("0x10", 2); ("0x2", 1); ("0xa", 1)]
     = Ok [("0x2", 1); ("0xa", 1); ("0x10", 2)].
Proof.
  assert (forall (V : Type) (a b c : V),
             ~ ascending_hex_keys [("0x10", a); ("0xa", b); ("0x2", c)]) as Hnot.
  { intros V a b c H.
    destruct (H [] "0x10" a "0xa" b [("0x2", c)] eq_refl) as (n1 & n2 & H1 & H2 & Hlt).
    vm_compute in H1, H2. injection H1 as <-. injection H2 as <-. lia. }
  split; [vm_compute; reflexivity | ].
  split; [apply Hnot | ].
  split; [vm_compute; reflexivity | ].
  split; [apply Hnot | vm_compute; reflexivity].
Qed.

(** ** Probability mass *)

Lemma dict_get_set {V : Type} (d : list (string * V)) (k k' : string) (v : V) :
  dict_get (dict_set d k v) k' = if String.eqb k' k then Some v else dict_get d k'.
Proof.
  induction d as [ | [k0 v0] d IH]; simpl.
  - reflexivity.
  - destruct (String.eqb_spec k k0) as [-> | Hne]; simpl.
    + destruct (String.eqb k' k0); reflexivity.
    + rewrite IH. destruct (String.eqb_spec k' k0) as [-> | Hne'];
        [ | reflexivity].
      destruct (String.eqb_spec k0 k) as [-> | _]; [congruence | reflexivity].
Qed.


Lemma dict_get_In {V : Type} (d : list (string * V)) (k : string) (v : V) :
  NoDup (map fst d) -> In (k, v) d -> dict_get d k = Some v.
Proof.
  induction d as [ | [k0 v0] d IH]; simpl; intros Hnd Hin; [contradiction | ].
  inversion Hnd as [ | ? ? Hnotin Hnd']; subst.
  destruct Hin as [[= -> ->] | Hin].
  - now rewrite String.eqb_refl.
  - destruct (String.eqb_spec k k0) as [-> | _]; [ | now apply IH].
    exfalso. apply Hnotin. apply (in_map fst) in Hin. exact Hin.
Qed.


(** ** When the projection on the classical bits returns *)

Lemma bits_of_pos_spec (p : positive) (acc : list ascii) :
  Forall is_bit acc -> Forall is_bit (bits_of_pos p acc).
Proof.
  revert acc. induction p as [p IH | p IH | ]; simpl; intros acc Hacc.
  - apply IH. constructor; [now right | exact Hacc].
  - apply IH. constructor; [now left | exact Hacc].
  - constructor; [now right | exact Hacc].
Qed.

Lemma format_0b_spec (n : N) (width : nat) :
  Forall is_bit (format_0b n width) /\ (width <= List.length (format_0b n width))%nat.
Proof.
  unfold format_0b. split.
  - apply Forall_app. split.
    + apply Forall_forall. intros c Hc. apply repeat_spec in Hc. now left.
    + destruct n as [ | p]; simpl.
      * constructor; [now left | constructor].
      * apply bits_of_pos_spec. constructor.
  - rewrite length_app, repeat_length. lia.
Qed.

Lemma py_getitem_in_range {A : Type} (l : list A) (i : Z) :
  - Z.of_nat (List.length l) <= i < Z.of_nat (List.length l) ->
  exists x, py_getitem l i = Ok x /\ In x l.
Proof.
  intros Hi. unfold py_getitem.
  set (j := if i <? 0 then i + Z.of_nat (List.length l) else i).
  assert (0 <= j < Z.of_nat (List.length l)) as Hj
      by (unfold j; destruct (Z.ltb_spec i 0); lia).
  destruct (Z.leb_spec 0 j); [ | lia].
  destruct (Z.ltb_spec j (Z.of_nat (List.length l))); [ | lia]. simpl.
  destruct (nth_error l (Z.to_nat j)) as [x | ] eqn:Hnth.
  - exists x. split; [reflexivity | ]. eapply nth_error_In. exact Hnth.
  - apply nth_error_None in Hnth. lia.
Qed.

Lemma replace_nth_spec {A : Type} (P : A -> Prop) (l : list A) (n : nat) (x : A) :
  List.length (replace_nth l n x) = List.length l
  /\ (Forall P l -> P x -> Forall P (replace_nth l n x)).
Proof.
  revert n. induction l as [ | h t IH]; intros n; simpl.
  - destruct n; auto.
  - destruct n as [ | n]; simpl.
    + split; [reflexivity | ]. intros Hall Hx. inversion Hall; subst. now constructor.
    + destruct (IH n) as [Hlen Hforall]. split; [now rewrite Hlen | ].
      intros Hall Hx. inversion Hall; subst. constructor; auto.
Qed.

Lemma py_setitem_in_range {A : Type} (P : A -> Prop) (l : list A) (i : Z) (x : A) :
  - Z.of_nat (List.length l) <= i < Z.of_nat (List.length l) ->
  exists l', py_setitem l i x = Ok l'
             /\ List.length l' = List.length l
             /\ (Forall P l -> P x -> Forall P l').
Proof.
  intros Hi. unfold py_setitem.
  set (j := if i <? 0 then i + Z.of_nat (List.length l) else i).
  assert (0 <= j < Z.of_nat (List.length l)) as Hj
      by (unfold j; destruct (Z.ltb_spec i 0); lia).
  destruct (Z.leb_spec 0 j); [ | lia].
  destruct (Z.ltb_spec j (Z.of_nat (List.length l))); [ | lia]. simpl.
  eexists. split; [reflexivity | apply replace_nth_spec].
Qed.

Lemma int_base2_bits (s : list ascii) :
  s <> [] -> Forall is_bit s -> exists n, int_base2 s = Ok n.
Proof.
  intros Hne Hbits.
  assert (forall acc, exists n, int_base2_from acc s = Ok n) as H.
  { clear Hne. induction Hbits as [ | c s [-> | ->] _ IH]; intros acc; simpl; eauto. }
  unfold int_base2. destruct s; [congruence | apply H].
Qed.

Lemma qubit_to_classical_hex_returns (k : N) (m : Measurements) (nq : nat) :
  measurements_in_range m nq -> exists key, __qubit_to_classical_hex k m nq = Ok key.
Proof.
  intros [Hnc Hall]. unfold __qubit_to_classical_hex.
  destruct (format_0b_spec k nq) as [Hbits Hlen].
  set (qubit_state := format_0b k nq) in *.
  set (nc := number_of_clbits m) in *.
  assert (forall ms cs,
             Forall (fun qc => - Z.of_nat nq <= fst qc < Z.of_nat nq
                               /\ - nc <= snd qc < nc) ms ->
             Forall is_bit cs -> Z.of_nat (List.length cs) = nc ->
             exists cs',
               for_each (fun cs '(q, c) =>
                           bit <- py_getitem qubit_state q ;; py_setitem cs c bit) ms cs
               = Ok cs'
               /\ Forall is_bit cs' /\ Z.of_nat (List.length cs') = nc) as Hloop.
  { induction ms as [ | [q c] ms IH]; intros cs Hms Hcs Hcslen; simpl; [eauto | ].
    inversion Hms as [ | ? ? [Hq Hc] Hms']; subst. simpl in Hq, Hc.
    destruct (py_getitem_in_range qubit_state q) as (bit & -> & Hbit); [lia | ].
    simpl.
    destruct (py_setitem_in_range is_bit cs c bit) as (cs1 & -> & Hlen1 & Hbits1);
      [lia | ].
    simpl. apply IH; [exact Hms' | | lia].
    apply Hbits1; [exact Hcs | ]. rewrite Forall_forall in Hbits. now apply Hbits. }
  destruct (Hloop (measurements m) (repeat "0"%char (Z.to_nat nc))) as (cs & -> & Hcs & Hcslen).
  - exact Hall.
  - apply Forall_forall. intros c Hc. apply repeat_spec in Hc. now left.
  - rewrite repeat_length. lia.
  - simpl. destruct (int_base2_bits cs) as [n ->]; [ | exact Hcs | simpl; eauto].
    intros ->. simpl in Hcslen. lia.
Qed.

(** [__convert_histogram] returns a histogram whenever the result has one
    and the measurement map is in range. *)
Lemma convert_histogram_returns (order : AttributeOrder)
  (res : Result) (m : Measurements) (h : list (N * float)) :
  histogram res = Some h ->
  measurements_in_range m (number_of_qubits res) ->
  exists probabilities, __convert_histogram order res m = Ok probabilities.
Proof.
  intros Hh Hm. unfold __convert_histogram.
  unfold getitem_histogram. rewrite Hh. simpl.
  assert (forall out, exists out',
             for_each (add_probability m (number_of_qubits res)) h out = Ok out')
    as Hloop.
  { clear Hh. induction h as [ | [k p] h' IH]; intros out; simpl; [eauto | ].
    destruct (qubit_to_classical_hex_returns k m _ Hm) as [key ->]. simpl. apply IH. }
  destruct (Hloop []) as [out Hout]. rewrite Hout. simpl.
  destruct (sorted_by_hex_key_returns out) as [sorted ->]; [ | simpl; eauto].
  exact (proj2 (add_probability_good_keys _ _ _ _ _ (good_keys_nil _) Hout)).
Qed.

(** ** The single shot *)

Lemma none_exceeding_nil (prob sum : float) : none_exceeding prob sum [].
Proof. intros b1 x b2 Heq. now destruct b1. Qed.

Lemma none_exceeding_cons (prob sum : float) (k : N) (p : float) (h : list (N * float)) :
  none_exceeding prob sum ((k, p) :: h)
  <-> (prob <? sum + p)%float = false /\ none_exceeding prob (sum + p) h.
Proof.
  split.
  - intros Hnone. split.
    + apply (Hnone [] (k, p) h eq_refl).
    + intros b1 x b2 ->. apply (Hnone ((k, p) :: b1) x b2 eq_refl).
  - intros [Hfirst Hrest] b1 x b2 Heq. destruct b1 as [ | y b1]; simpl in Heq.
    + injection Heq as <- _. exact Hfirst.
    + injection Heq as <- Heq. apply (Hrest b1 x b2 Heq).
Qed.

(** The loop of the single shot ends without a sample when no cumulative
    probability exceeds the number drawn, and stops at the first entry whose
    cumulative probability does. *)
Lemma single_shot_loop_spec (prob : float) (m : Measurements) (nq : nat)
  (h : list (N * float)) (sum : float) :
  (none_exceeding prob sum h /\ single_shot_loop prob m nq sum h = Ok ([], []))
  \/ (exists before k p after,
         h = (before ++ (k, p) :: after)%list
         /\ first_exceeding prob sum before (k, p)
         /\ single_shot_loop prob m nq sum h
            = (classical_state_hex <- __qubit_to_classical_hex k m nq ;;
               Ok ([(classical_state_hex, 1)], [classical_state_hex]))).
Proof.
  revert sum. induction h as [ | [k p] h IH]; intros sum.
  - left. split; [apply none_exceeding_nil | reflexivity].
  - cbn [single_shot_loop]. destruct (prob <? sum + p)%float eqn:Hstop.
    + right. exists [], k, p, h. split; [reflexivity | ].
      split; [ | reflexivity]. split; [apply none_exceeding_nil | exact Hstop].
    + destruct (IH (sum + p)%float)
        as [[Hnone ->] | (before & k' & p' & after & -> & [Hnone Hexc] & ->)].
      * left. split; [ | reflexivity]. apply none_exceeding_cons. auto.
      * right. exists ((k, p) :: before), k', p', after. split; [reflexivity | ].
        split; [ | reflexivity]. split; [ | exact Hexc].
        apply none_exceeding_cons. auto.
Qed.

Lemma single_shot_loop_no_sample (prob : float) (m : Measurements) (nq : nat)
  (h : list (N * float)) (sum : float) :
  none_exceeding prob sum h -> single_shot_loop prob m nq sum h = Ok ([], []).
Proof.
  revert sum. induction h as [ | [k p] h IH]; intros sum Hnone; [reflexivity | ].
  apply none_exceeding_cons in Hnone as [Hfirst Hrest].
  cbn [single_shot_loop]. rewrite Hfirst. now apply IH.
Qed.

Lemma Obj_from_dict_singleton {V : Type} (order : AttributeOrder) (k : string) (v : V) :
  Obj_from_dict order [(k, v)] = [(k, v)].
Proof. apply Permutation_length_1_inv, Obj_from_dict_perm. Qed.

(** C1, as the code has it.  When the raw data of a result is empty and the
    measurement map is in range, [__convert_result_data] draws one random
    number and walks through the histogram, adding the probabilities one
    after the other in binary64.  It stops at the first entry whose
    cumulative probability exceeds the number drawn and returns one sample,
    the projection of the register of that entry with count 1; when no
    cumulative probability exceeds the number drawn it returns no sample at
    all.  That happens on a histogram whose probabilities add up to one: for
    0.2, 0.7 and 0.1 the cumulative probabilities end at 1 - 2^-53, the
    largest number the generator returns, and for that number both the memory
    data and the count histogram are empty. *)
Theorem single_shot_misses_a_normalised_histogram :
  (forall order api res m rng state_probabilities,
      get_raw_data api (format_d (result_id res)) = [] ->
      histogram res = Some state_probabilities ->
      measurements_in_range m (number_of_qubits res) ->
      (exists before qubit_register probability after key,
          state_probabilities = (before ++ (qubit_register, probability) :: after)%list
          /\ first_exceeding (draws rng (drawn rng)) 0 before (qubit_register, probability)
          /\ __qubit_to_classical_hex qubit_register m (number_of_qubits res) = Ok key
          /\ __convert_result_data order api res m rng
             = Ok ([(key, 1)], [key], {| draws := draws rng; drawn := S (drawn rng) |}))
      \/ (none_exceeding (draws rng (drawn rng)) 0 state_probabilities
          /\ __convert_result_data order api res m rng
             = Ok ([], [], {| draws := draws rng; drawn := S (drawn rng) |})))
  /\ histogram normalised_result
     = Some [(0%N, 0.2%float); (1%N, 0.7%float); (2%N, 0.1%float)]
  /\ total_mass [(0%N, 0.2%float); (2%N, 0.1%float); (1%N, 0.7%float)] = 1%float
  /\ cumulative 0 [(0%N, 0.2%float); (1%N, 0.7%float); (2%N, 0.1%float)] = largest_draw
  /\ (0 <=? largest_draw)%float = true
  /\ (largest_draw <? 1)%float = true
  /\ (forall order,
        __convert_result_data order single_shot_api normalised_result identity_map_2
          (constant_rng largest_draw)
        = Ok ([], [], {| draws := fun _ => largest_draw; drawn := 1 |})).
Proof.
  split; [ | repeat split; try reflexivity].
  - intros order api res m rng h Hraw Hh Hm.
    unfold __convert_result_data. rewrite Hraw.
    unfold getitem_histogram. rewrite Hh. cbn [bind np_random_rand].
    destruct (single_shot_loop_spec (draws rng (drawn rng)) m (number_of_qubits res) h 0)
      as [[Hnone ->] | (before & k & p & after & Heq & Hfirst & ->)].
    + right. split; [exact Hnone | ]. cbn. now rewrite Obj_from_dict_nil.
    + left. destruct (qubit_to_classical_hex_returns k m _ Hm) as [key Hkey].
      exists before, k, p, after, key.
      split; [exact Heq | split; [exact Hfirst | split; [exact Hkey | ]]].
      rewrite Hkey. cbn [bind dict_set].
      destruct (qubit_to_classical_hex_is_hex _ _ _ _ Hkey) as [n ->].
      unfold sorted_by_key, hex_key. cbn [comprehension fst bind].
      rewrite int_base16_hex. cbn. now rewrite Obj_from_dict_singleton.
  - intros order. unfold __convert_result_data.
    change (get_raw_data single_shot_api (format_d (result_id normalised_result)))
      with (@nil N).
    cbn [getitem_histogram histogram normalised_result bind np_random_rand].
    rewrite single_shot_loop_no_sample.
    + cbn. now rewrite Obj_from_dict_nil.
    + apply none_exceeding_cons. split; [reflexivity | ].
      apply none_exceeding_cons. split; [reflexivity | ].
      apply none_exceeding_cons. split; [reflexivity | apply none_exceeding_nil].
Qed.

(** ** The text of a translation *)

Lemma append_assoc (a b c : string) : (a ++ b) ++ c = a ++ (b ++ c).
Proof. induction a as [ | x a IH]; simpl; [reflexivity | now rewrite IH]. Qed.

Lemma append_nil_r (a : string) : a ++ "" = a.
Proof. induction a as [ | x a IH]; simpl; [reflexivity | now rewrite IH]. Qed.

Lemma write_instructions_statements (P : CircuitToString) (instrs : list Instruction)
  (parser : parser_state P) (stream : string) :
  for_each (write_instruction P) instrs (parser, stream)
  = ('(parser, lines) <- statements P parser instrs ;; Ok (parser, stream ++ join lines)).
Proof.
  revert parser stream. induction instrs as [ | i instrs IH]; intros parser stream; simpl.
  - now rewrite append_nil_r.
  - destruct (call_gate P parser _ i) as [[parser1 line] | e]; simpl; [ | reflexivity].
    destruct line as [line | ]; simpl; rewrite IH;
      destruct (statements P parser1 instrs) as [[parser2 lines] | e]; simpl;
      try reflexivity.
    now rewrite append_assoc.
Qed.



Example generate_cqasm_entangle :
  _generate_cqasm sample_parser entangle
  = Ok ("version 1.0" ++ nl
        ++ "# cQASM generated by QI backend for Qiskit" ++ nl
        ++ "qubits 2" ++ nl
        ++ "H q[0]" ++ nl
        ++ "CNOT q[0], q[1]" ++ nl).
Proof. reflexivity. Qed.

(** ** Unknown gates *)

Lemma call_unknown_gate (P : CircuitToString) (parser : parser_state P)
  (instruction : Instruction) :
  lookup_gate ("_" ++ lower (name instruction)) (gate_table P) = None ->
  call_gate P parser ("_" ++ lower (name instruction)) instruction
  = Raise (AttributeError ("_" ++ lower (name instruction))).
Proof. intros Hnone. unfold call_gate. now rewrite Hnone. Qed.

(** C7, as the code has it.  When the instructions before it are translated
    and the parser has no method for the gate of an instruction,
    [_generate_cqasm] raises [AttributeError] on the name of the method, the
    name of the gate in lower case after an underscore: the method is looked
    up with [getattr] without a default value, which fails before any error
    on unsupported gates can be made.  The exception is the same with and
    without a classical condition, it is not an [ApiError], and it is not
    caught: [_submit_experiment] raises it too. *)
Theorem unknown_gate_raises_attribute_error (P : CircuitToString)
  (experiment : QobjExperiment) (before after : list Instruction)
  (instruction : Instruction) (parser : parser_state P) (lines : list string) :
  instructions experiment = (before ++ instruction :: after)%list ->
  statements P (new_parser P) before = Ok (parser, lines) ->
  lookup_gate ("_" ++ lower (name instruction)) (gate_table P) = None ->
  _generate_cqasm P experiment = Raise (AttributeError ("_" ++ lower (name instruction)))
  /\ (forall number_of_shots,
        _submit_experiment P experiment number_of_shots
        = Raise (AttributeError ("_" ++ lower (name instruction))))
  /\ (forall msg, _generate_cqasm P experiment <> Raise (ApiError msg)).
Proof.
  intros Hinstrs Hbefore Hnone.
  assert (_generate_cqasm P experiment
          = Raise (AttributeError ("_" ++ lower (name instruction)))) as H.
  { unfold _generate_cqasm. rewrite Hinstrs, for_each_app.
    rewrite write_instructions_statements, Hbefore.
    cbn [bind for_each]. unfold write_instruction at 1.
    now rewrite (call_unknown_gate P parser instruction Hnone). }
  split; [exact H | split].
  - intros number_of_shots. unfold _submit_experiment. now rewrite H.
  - intros msg. rewrite H. discriminate.
Qed.

Example unknown_gate_message :
  _generate_cqasm sample_parser unknown_gate = Raise (AttributeError "_bla").
Proof. reflexivity. Qed.

Example upper_case_gate_is_known :
  _generate_cqasm sample_parser
    {| header := sample_header 1; instructions := [gate "H" [0]] |}
  = Ok ("version 1.0" ++ nl
        ++ "# cQASM generated by QI backend for Qiskit" ++ nl
        ++ "qubits 1" ++ nl
        ++ "H q[0]" ++ nl).
Proof. reflexivity. Qed.

(** ** The properties on the sample data *)

Lemma identity_map_2_in_range : measurements_in_range identity_map_2 2.
Proof. split; [simpl; lia | repeat constructor; simpl; lia]. Qed.

Example single_shot_first_state :
  __convert_result_data dictionary_order single_shot_api bell_result identity_map_2
    (constant_rng 0.25%float)
  = Ok ([("0x0", 1)], ["0x0"], {| draws := fun _ => 0.25%float; drawn := 1 |}).
Proof. reflexivity. Qed.

Example single_shot_second_state :
  __convert_result_data dictionary_order single_shot_api bell_result identity_map_2
    (constant_rng 0.75%float)
  = Ok ([("0x3", 1)], ["0x3"], {| draws := fun _ => 0.75%float; drawn := 1 |}).
Proof. reflexivity. Qed.



(** Two registers projected on the same classical bit are added up. *)
Example convert_histogram_aggregates :
  __convert_histogram dictionary_order bell_result
    {| measurements := [(0, 0)]; number_of_clbits := 1 |}
  = Ok [("0x0", 0.5%float); ("0x1", 0.5%float)].
Proof. reflexivity. Qed.

Example convert_histogram_merges :
  __convert_histogram dictionary_order bell_result
    {| measurements := []; number_of_clbits := 1 |}
  = Ok [("0x0", 1%float)].
Proof. reflexivity. Qed.

(** The counts of three shots, sorted by the value of the key. *)
Example convert_result_data_counts :
  __convert_result_data dictionary_order bell_api bell_result identity_map_2
    (constant_rng 0.25%float)
  = Ok ([("0x0", 1); ("0x3", 2)], ["0x3"; "0x0"; "0x3"], constant_rng 0.25%float).
Proof. reflexivity. Qed.

(** The experiment result of the sample job. *)
Lemma experiment_results_fixed_fields_witness :
  exists ers,
    get_experiment_results dictionary_order bell_api "1" (constant_rng 0.25%float)
    = Ok (ers, constant_rng 0.25%float)
    /\ Forall (fun er => er_success er = true /\ er_status er = "DONE" /\ er_seed er = 42) ers
    /\ Forall2 (copied_fields bell_api) [bell_job] ers.
Proof.
  eexists. split.
  - vm_compute. reflexivity.
  - apply (experiment_results_fixed_fields dictionary_order bell_api "1" (constant_rng 0.25%float)
             (constant_rng 0.25%float)).
    vm_compute. reflexivity.
Defined.

(** The unknown gate under a condition, after the declaration of the
    condition. *)
Lemma unknown_gate_raises_attribute_error_witness :
  _generate_cqasm sample_parser unknown_controlled_gate = Raise (AttributeError "_bla")
  /\ (forall number_of_shots,
        _submit_experiment sample_parser unknown_controlled_gate number_of_shots
        = Raise (AttributeError "_bla"))
  /\ (forall msg,
        _generate_cqasm sample_parser unknown_controlled_gate <> Raise (ApiError msg)).
Proof.
  apply (unknown_gate_raises_attribute_error sample_parser unknown_controlled_gate
           [bfunc] [] (bla (Some 17)) tt []).
  - reflexivity.
  - reflexivity.
  - reflexivity.
Defined.

(** The job of the entangle circuit is accepted. *)
Lemma validate_spec_witness :
  __validate entangle_job = Ok tt
  /\ 1 <= shots (config entangle_job)
  /\ Forall valid_experiment (experiments entangle_job)
  /\ ~ (exists e, __validate entangle_job = Raise e).
Proof.
  assert (instructions_have_qubits entangle_job) as Hqubits
      by (repeat constructor; discriminate).
  destruct (validate_spec entangle_job Hqubits) as (Hok & _).
  split; [reflexivity | ].
  split; [apply Hok; reflexivity | ].
  split; [apply Hok; reflexivity | ].
  intros [e He]. discriminate He.
Defined.

(** C9 as stated fails on an instruction without qubits.  The first job
    has one shot or more, two classical bits and no measurement at all, so
    that none of the three conditions fails, and [__validate] raises all the
    same: [AttributeError], when the check of the gates after a measurement
    reaches the instruction [bfunc].  The second job has a gate after the
    measurement of its qubit, and [__validate] raises [AttributeError] before
    it comes to the gate, not [QisKitBackendError]. *)
Lemma validate_without_qubits :
  1 <= shots (config condition_job)
  /\ Forall valid_experiment (experiments condition_job)
  /\ __validate condition_job = Raise (AttributeError "qubits")
  /\ (exists experiment,
        In experiment (experiments measured_condition_job)
        /\ gate_after_measure experiment)
  /\ __validate measured_condition_job = Raise (AttributeError "qubits")
  /\ (forall msg, __validate measured_condition_job <> Raise (QisKitBackendError msg)).
Proof.
  split; [simpl; lia | ].
  split; [ | split; [reflexivity | split; [ | split; [reflexivity | discriminate]]]].
  - constructor; [ | constructor]. split; [simpl; lia | ].
    intros (before & i & after & q & earlier & Heq & _ & _ & Hin & Hname & _).
    assert (In earlier [bfunc; gate "h" [0]]) as Hearlier.
    { simpl in Heq. rewrite Heq. apply in_or_app. now left. }
    destruct Hearlier as [<- | [<- | []]]; discriminate Hname.
  - eexists. split; [now left | ].
    exists [measure 0 0; bfunc], (gate "h" [0]), [], 0, (measure 0 0).
    repeat split; simpl; auto. discriminate.
Qed.

(** A job with a gate after a measurement is refused before any call. *)
Example run_operation_after_measurement :
  run sample_parser
    {| config := {| shots := 1024 |};
       experiments :=
         [{| header := sample_header 2;
             instructions := [measure 0 0; gate "h" [0]] |}] |}
    "uuid" "7"
  = ([], Raise (QisKitBackendError "Operation after measurement!")).
Proof. reflexivity. Qed.

Example run_invalid_shots :
  run sample_parser {| config := {| shots := 0 |}; experiments := [entangle] |} "uuid" "7"
  = ([], Raise (QisKitBackendError "Invalid shots (number_of_shots=0)")).
Proof. reflexivity. Qed.

Example run_invalid_clbits :
  run sample_parser
    {| config := {| shots := 1 |};
       experiments :=
         [{| header := {| n_qubits := 2; memory_slots := 0; header_name := "circuit0";
                          creg_sizes := [] |};
             instructions := [gate "h" [0]] |}] |}
    "uuid" "7"
  = ([], Raise (QisKitBackendError "Invalid amount of classical bits (0)!")).
Proof. reflexivity. Qed.

Example run_entangle :
  run sample_parser {| config := {| shots := 1024 |}; experiments := [entangle] |} "uuid" "7"
  = ([create_project "qi-sdk-project-uuid" 1024;
      execute_qasm_async
        ("version 1.0" ++ nl
         ++ "# cQASM generated by QI backend for Qiskit" ++ nl
         ++ "qubits 2" ++ nl
         ++ "H q[0]" ++ nl
         ++ "CNOT q[0], q[1]" ++ nl)
        1024 "circuit0"
        {| ud_name := "circuit0"; ud_memory_slots := 2; ud_creg_sizes := [("c", 2)];
           ud_measurements :=
             {| measurements := [(1, 1); (0, 0)]; number_of_clbits := 2 |} |}],
     Ok {| qi_job_id := "7"; qi_experiments := [entangle] |}).
Proof. reflexivity. Qed.

(** A result without histogram: the message ends with the raw text. *)
Example missing_histogram_message :
  experiment_result dictionary_order bell_api
    {| result_id := 3; histogram := None; number_of_qubits := 2;
       raw_text := Some "Error: simulation failed"; execution_time_in_seconds := 0 |}
    bell_job (constant_rng 0.25%float)
  = Raise (QisKitBackendError
             ("Result from backend contains no histogram data!" ++ nl
              ++ "Error: simulation failed")).
Proof. reflexivity. Qed.

(** * Further properties of the backend *)

(** ** Binary strings *)

Lemma is_bit_char (c : ascii) : is_bit c -> c = if bit_of c then "1"%char else "0"%char.
Proof. intros [-> | ->]; reflexivity. Qed.

Lemma int_base2_from_testbit (s : list ascii) (acc v : N) (j : nat) :
  Forall is_bit s ->
  int_base2_from acc s = Ok v ->
  N.testbit v (N.of_nat j)
  = if (j <? List.length s)%nat
    then bit_of (nth (List.length s - 1 - j) s "0"%char)
    else N.testbit acc (N.of_nat (j - List.length s)).
Proof.
  intros Hbits. revert acc.
  induction Hbits as [ | c s Hc _ IH]; intros acc H.
  - simpl in H. injection H as <-. simpl. now rewrite Nat.sub_0_r.
  - assert (int_base2_from (2 * acc + (if bit_of c then 1 else 0))%N s = Ok v) as H'.
    { simpl in H. destruct Hc as [-> | ->]; simpl in *; [ | exact H].
      now rewrite N.add_0_r. }
    rewrite (IH _ H'). cbn [List.length].
    destruct (Nat.ltb_spec j (List.length s)) as [Hlt | Hge].
    + destruct (Nat.ltb_spec j (S (List.length s))); [ | lia].
      replace (S (List.length s) - 1 - j)%nat with (S (List.length s - 1 - j)) by lia.
      reflexivity.
    + destruct (Nat.ltb_spec j (S (List.length s))) as [Hlt' | Hge'].
      * replace (j - List.length s)%nat with 0%nat by lia.
        replace (S (List.length s) - 1 - j)%nat with 0%nat by lia. simpl nth.
        destruct (bit_of c); [apply N.testbit_odd_0 | ].
        rewrite N.add_0_r. apply N.testbit_even_0.
      * replace (j - List.length s)%nat with (S (j - S (List.length s))) by lia.
        rewrite Nat2N.inj_succ.
        destruct (bit_of c).
        -- apply N.testbit_odd_succ. lia.
        -- rewrite N.add_0_r. apply N.testbit_even_succ. lia.
Qed.

Lemma int_base2_from_bits_of_pos (p : positive) (acc : list ascii) :
  int_base2_from 0 (bits_of_pos p acc) = int_base2_from (N.pos p) acc.
Proof.
  revert acc. induction p as [p IH | p IH | ]; intros acc; simpl bits_of_pos.
  - rewrite IH. reflexivity.
  - rewrite IH. reflexivity.
  - reflexivity.
Qed.

Lemma int_base2_from_zeros (n : nat) (s : list ascii) :
  int_base2_from 0 (repeat "0"%char n ++ s) = int_base2_from 0 s.
Proof. induction n as [ | n IH]; simpl; [reflexivity | exact IH]. Qed.

Lemma int_base2_from_format_0b (k : N) (width : nat) :
  int_base2_from 0 (format_0b k width) = Ok k.
Proof.
  unfold format_0b. rewrite int_base2_from_zeros.
  destruct k as [ | p]; [reflexivity | ].
  simpl format_b. now rewrite int_base2_from_bits_of_pos.
Qed.

Lemma length_bits_of_pos (p : positive) (acc : list ascii) :
  List.length (bits_of_pos p acc) = (Pos.size_nat p + List.length acc)%nat.
Proof.
  revert acc. induction p as [p IH | p IH | ]; intros acc; simpl;
    try rewrite IH; simpl; lia.
Qed.

Lemma size_nat_below_pow2 (p : positive) (width : nat) :
  (N.pos p < 2 ^ N.of_nat width)%N -> (Pos.size_nat p <= width)%nat.
Proof.
  revert width. induction p as [p IH | p IH | ]; intros width Hlt;
    (destruct width as [ | width]; [simpl in Hlt; lia | ]);
    rewrite Nat2N.inj_succ, N.pow_succ_r' in Hlt; simpl Pos.size_nat.
  - apply le_n_S, IH. lia.
  - apply le_n_S, IH. lia.
  - lia.
Qed.

Lemma length_format_0b (k : N) (width : nat) :
  (k < 2 ^ N.of_nat width)%N -> List.length (format_0b k width) = Nat.max width 1.
Proof.
  intros Hlt. unfold format_0b. rewrite length_app, repeat_length.
  destruct k as [ | p]; simpl format_b.
  - simpl. lia.
  - rewrite length_bits_of_pos. simpl.
    pose proof (size_nat_below_pow2 p width Hlt).
    assert (1 <= Pos.size_nat p)%nat by (destruct p; simpl; lia). lia.
Qed.

(** The digit at a position of the qubit string is a bit of the register. *)
Lemma nth_format_0b (k : N) (width i : nat) :
  (k < 2 ^ N.of_nat width)%N ->
  (i < width)%nat ->
  bit_of (nth i (format_0b k width) "0"%char) = N.testbit k (N.of_nat (width - 1 - i)).
Proof.
  intros Hlt Hi.
  pose proof (int_base2_from_testbit (format_0b k width) 0 k (width - 1 - i)
                (proj1 (format_0b_spec k width)) (int_base2_from_format_0b k width)) as H.
  rewrite (length_format_0b k width Hlt) in H.
  destruct (Nat.ltb_spec (width - 1 - i) (Nat.max width 1)); [ | lia].
  rewrite H. f_equal. f_equal. lia.
Qed.

Lemma below_pow2_of_high_bits (v : N) (n : nat) :
  (forall j, (n <= j)%nat -> N.testbit v (N.of_nat j) = false) ->
  (v < 2 ^ N.of_nat n)%N.
Proof.
  intros Hhigh. destruct (N.eq_dec v 0) as [-> | Hnz].
  - apply N.neq_0_lt_0. apply N.pow_nonzero. discriminate.
  - apply N.log2_lt_pow2; [lia | ].
    destruct (N.lt_ge_cases (N.log2 v) (N.of_nat n)) as [Hlt | Hge]; [exact Hlt | ].
    pose proof (N.bit_log2 v Hnz) as Hbit.
    rewrite <- (N2Nat.id (N.log2 v)) in Hbit.
    rewrite Hhigh in Hbit by lia. discriminate.
Qed.

(** ** The copy of the measured bits *)

Lemma py_getitem_nat {A : Type} (l : list A) (i : Z) (d : A) :
  0 <= i < Z.of_nat (List.length l) -> py_getitem l i = Ok (nth (Z.to_nat i) l d).
Proof.
  intros Hi. unfold py_getitem.
  destruct (Z.ltb_spec i 0); [lia | ].
  destruct (Z.leb_spec 0 i); [ | lia].
  destruct (Z.ltb_spec i (Z.of_nat (List.length l))); [ | lia]. simpl.
  destruct (nth_error l (Z.to_nat i)) as [x | ] eqn:Hnth.
  - now rewrite (nth_error_nth _ _ d Hnth).
  - apply nth_error_None in Hnth. lia.
Qed.

Lemma py_setitem_nat {A : Type} (l : list A) (i : Z) (x : A) :
  0 <= i < Z.of_nat (List.length l) -> py_setitem l i x = Ok (replace_nth l (Z.to_nat i) x).
Proof.
  intros Hi. unfold py_setitem.
  destruct (Z.ltb_spec i 0); [lia | ].
  destruct (Z.leb_spec 0 i); [ | lia].
  destruct (Z.ltb_spec i (Z.of_nat (List.length l))); [reflexivity | lia].
Qed.

Lemma py_setitem_out_of_range {A : Type} (l : list A) (i : Z) (x : A) :
  Z.of_nat (List.length l) <= i -> py_setitem l i x = Raise IndexError.
Proof.
  intros Hi. unfold py_setitem.
  destruct (Z.ltb_spec i 0); [lia | ].
  destruct (Z.ltb_spec i (Z.of_nat (List.length l))); [lia | ].
  now rewrite andb_false_r.
Qed.

Lemma length_replace_nth {A : Type} (l : list A) (n : nat) (x : A) :
  List.length (replace_nth l n x) = List.length l.
Proof. exact (proj1 (replace_nth_spec (fun _ => True) l n x)). Qed.

Lemma nth_replace_nth {A : Type} (l : list A) (n j : nat) (x d : A) :
  (n < List.length l)%nat ->
  nth j (replace_nth l n x) d = if (j =? n)%nat then x else nth j l d.
Proof.
  revert n j. induction l as [ | h t IH]; intros n j Hn; simpl in Hn; [lia | ].
  destruct n as [ | n]; destruct j as [ | j]; simpl; try reflexivity.
  apply IH. lia.
Qed.

Lemma length_copy_bits (qubit_state : list ascii) (ms : list (Z * Z)) (cs : list ascii) :
  List.length (copy_bits qubit_state ms cs) = List.length cs.
Proof.
  unfold copy_bits. revert cs. induction ms as [ | qc ms IH]; intros cs; simpl;
    [reflexivity | ].
  now rewrite IH, length_replace_nth.
Qed.

Lemma copy_bits_loop (qubit_state : list ascii) (ms : list (Z * Z)) (cs : list ascii) :
  Forall (fun qc => 0 <= fst qc < Z.of_nat (List.length qubit_state)
                    /\ 0 <= snd qc < Z.of_nat (List.length cs)) ms ->
  for_each (fun cs '(q, c) => bit <- py_getitem qubit_state q ;; py_setitem cs c bit) ms cs
  = Ok (copy_bits qubit_state ms cs).
Proof.
  unfold copy_bits. revert cs. induction ms as [ | [q c] ms IH]; intros cs Hms; simpl;
    [reflexivity | ].
  inversion Hms as [ | ? ? [Hq Hc] Hms']; subst. simpl in Hq, Hc.
  rewrite (py_getitem_nat _ _ "0"%char Hq). simpl.
  rewrite (py_setitem_nat _ _ _ Hc). simpl.
  apply IH. now rewrite length_replace_nth.
Qed.

Lemma nth_copy_bits_other (qubit_state : list ascii) (ms : list (Z * Z))
  (cs : list ascii) (j : nat) :
  Forall (fun qc => 0 <= snd qc < Z.of_nat (List.length cs)) ms ->
  ~ In (Z.of_nat j) (map snd ms) ->
  nth j (copy_bits qubit_state ms cs) "0"%char = nth j cs "0"%char.
Proof.
  unfold copy_bits. revert cs. induction ms as [ | [q c] ms IH]; intros cs Hms Hj; simpl;
    [reflexivity | ].
  inversion Hms as [ | ? ? Hc Hms']; subst. simpl in Hc, Hj.
  rewrite IH.
  - rewrite nth_replace_nth by lia.
    destruct (Nat.eqb_spec j (Z.to_nat c)) as [-> | _]; [ | reflexivity].
    exfalso. apply Hj. left. lia.
  - now rewrite length_replace_nth.
  - intros Hin. apply Hj. now right.
Qed.

Lemma nth_copy_bits_measured (qubit_state : list ascii) (ms : list (Z * Z))
  (cs : list ascii) (q c : Z) :
  Forall (fun qc => 0 <= snd qc < Z.of_nat (List.length cs)) ms ->
  NoDup (map snd ms) ->
  In (q, c) ms ->
  nth (Z.to_nat c) (copy_bits qubit_state ms cs) "0"%char
  = nth (Z.to_nat q) qubit_state "0"%char.
Proof.
  revert cs. induction ms as [ | [q0 c0] ms IH]; intros cs Hms Hnd Hin; [contradiction | ].
  inversion Hms as [ | ? ? Hc Hms']; subst. simpl in Hc.
  inversion Hnd as [ | ? ? Hnotin Hnd']; subst.
  assert (Forall (fun qc => 0 <= snd qc
                            < Z.of_nat (List.length
                                          (replace_nth cs (Z.to_nat c0)
                                             (nth (Z.to_nat q0) qubit_state "0"%char)))) ms)
    as Hms'' by now rewrite length_replace_nth.
  change (copy_bits qubit_state ((q0, c0) :: ms) cs)
    with (copy_bits qubit_state ms
            (replace_nth cs (Z.to_nat c0) (nth (Z.to_nat q0) qubit_state "0"%char))).
  destruct Hin as [[= -> ->] | Hin].
  - rewrite nth_copy_bits_other; [ | exact Hms'' | now rewrite Z2Nat.id by lia].
    rewrite nth_replace_nth by lia. now rewrite Nat.eqb_refl.
  - now apply IH.
Qed.

(** The projection on a map whose positions are in range, bit by bit. *)
Lemma qubit_to_classical_hex_bits (k : N) (m : Measurements) (nq : nat) :
  (k < 2 ^ N.of_nat nq)%N ->
  1 <= number_of_clbits m ->
  positions_in_range m nq ->
  NoDup (map snd (measurements m)) ->
  exists v,
    __qubit_to_classical_hex k m nq = Ok (hex v)
    /\ (v < 2 ^ Z.to_N (number_of_clbits m))%N
    /\ (forall q c,
           In (q, c) (measurements m) ->
           N.testbit v (Z.to_N (number_of_clbits m - 1 - c))
           = N.testbit k (Z.to_N (Z.of_nat nq - 1 - q)))
    /\ (forall c,
           0 <= c < number_of_clbits m ->
           ~ In c (map snd (measurements m)) ->
           N.testbit v (Z.to_N (number_of_clbits m - 1 - c)) = false).
Proof.
  intros Hk Hnc Hpos Hnd. unfold __qubit_to_classical_hex, positions_in_range in *.
  set (nc := number_of_clbits m) in *.
  set (qs := format_0b k nq).
  set (cs0 := repeat "0"%char (Z.to_nat nc)).
  assert (List.length cs0 = Z.to_nat nc) as Hlen0 by apply repeat_length.
  assert (nq <= List.length qs)%nat as Hlenq by apply format_0b_spec.
  assert (Forall (fun qc => 0 <= snd qc < Z.of_nat (List.length cs0)) (measurements m))
    as Hc.
  { eapply Forall_impl; [ | exact Hpos]. intros [q c] [_ H]. simpl in *. lia. }
  rewrite copy_bits_loop.
  2:{ eapply Forall_impl; [ | exact Hpos]. intros [q c] [Hq H]. simpl in *. lia. }
  cbn [bind]. set (cs := copy_bits qs (measurements m) cs0).
  assert (List.length cs = Z.to_nat nc) as Hlen
      by (unfold cs; now rewrite length_copy_bits).
  assert (Forall is_bit cs) as Hbits.
  { unfold cs, copy_bits.
    assert (Forall is_bit cs0) as Hcs0.
    { apply Forall_forall. intros c Hin. apply repeat_spec in Hin. now left. }
    generalize cs0 Hcs0. clear - qs. intros cs0 Hcs0. revert cs0 Hcs0.
    induction (measurements m) as [ | [q c] ms IH]; intros cs0 Hcs0; simpl; [exact Hcs0 | ].
    apply IH. apply replace_nth_spec; [exact Hcs0 | ].
    destruct (Nat.lt_ge_cases (Z.to_nat q) (List.length qs)) as [Hlt | Hge].
    - pose proof (proj1 (format_0b_spec k nq)) as Hq. rewrite Forall_forall in Hq.
      apply Hq. now apply nth_In.
    - rewrite nth_overflow by exact Hge. now left. }
  destruct (int_base2_bits cs) as [v Hv]; [ | exact Hbits | ].
  { intros Hnil. rewrite Hnil in Hlen. simpl in Hlen. lia. }
  rewrite Hv. cbn [bind]. exists v. split; [reflexivity | ].
  assert (int_base2_from 0 cs = Ok v) as Hv'.
  { unfold int_base2 in Hv. destruct cs; [discriminate | exact Hv]. }
  pose proof (fun j => int_base2_from_testbit cs 0 v j Hbits Hv') as Hbit.
  rewrite Hlen in Hbit.
  split; [ | split].
  - replace (Z.to_N nc) with (N.of_nat (Z.to_nat nc)) by lia.
    apply below_pow2_of_high_bits. intros j Hj. rewrite Hbit.
    destruct (Nat.ltb_spec j (Z.to_nat nc)); [lia | apply N.bits_0].
  - intros q c Hin. rewrite Forall_forall in Hpos.
    destruct (Hpos _ Hin) as [Hq Hcr]. simpl in Hq, Hcr.
    replace (Z.to_N (nc - 1 - c)) with (N.of_nat (Z.to_nat nc - 1 - Z.to_nat c)) by lia.
    rewrite Hbit.
    destruct (Nat.ltb_spec (Z.to_nat nc - 1 - Z.to_nat c) (Z.to_nat nc)); [ | lia].
    replace (Z.to_nat nc - 1 - (Z.to_nat nc - 1 - Z.to_nat c))%nat with (Z.to_nat c) by lia.
    unfold cs. rewrite (nth_copy_bits_measured qs _ cs0 q c Hc Hnd Hin).
    unfold qs. rewrite nth_format_0b by (try exact Hk; lia).
    f_equal. lia.
  - intros c Hcr Hnotin.
    replace (Z.to_N (nc - 1 - c)) with (N.of_nat (Z.to_nat nc - 1 - Z.to_nat c)) by lia.
    rewrite Hbit.
    destruct (Nat.ltb_spec (Z.to_nat nc - 1 - Z.to_nat c) (Z.to_nat nc)); [ | lia].
    replace (Z.to_nat nc - 1 - (Z.to_nat nc - 1 - Z.to_nat c))%nat with (Z.to_nat c) by lia.
    unfold cs. rewrite nth_copy_bits_other; [ | exact Hc | now rewrite Z2Nat.id by lia].
    unfold cs0. rewrite nth_repeat. reflexivity.
Qed.

(** X1.  On a register below 2^number_of_qubits and a map whose positions
    are in range, with at least one classical bit and no classical position
    written twice, [__qubit_to_classical_hex] returns the hexadecimal of a
    value below 2^number_of_clbits in which the bit at classical position c
    (counted from the most significant end) is the bit of the register at qubit
    position q, for every pair (q, c) of the map, and every other bit is 0. *)
Theorem projection_copies_measured_bits (k : N) (m : Measurements) (nq : nat) :
  (k < 2 ^ N.of_nat nq)%N ->
  1 <= number_of_clbits m ->
  positions_in_range m nq ->
  NoDup (map snd (measurements m)) ->
  exists v,
    __qubit_to_classical_hex k m nq = Ok (hex v)
    /\ (v < 2 ^ Z.to_N (number_of_clbits m))%N
    /\ (forall q c,
           In (q, c) (measurements m) ->
           N.testbit v (Z.to_N (number_of_clbits m - 1 - c))
           = N.testbit k (Z.to_N (Z.of_nat nq - 1 - q)))
    /\ (forall c,
           0 <= c < number_of_clbits m ->
           ~ In c (map snd (measurements m)) ->
           N.testbit v (Z.to_N (number_of_clbits m - 1 - c)) = false).
Proof. exact (qubit_to_classical_hex_bits k m nq). Qed.

Lemma projection_copies_measured_bits_witness :
  exists v,
    __qubit_to_classical_hex 6
      {| measurements := [(0, 2); (2, 0)]; number_of_clbits := 3 |} 3 = Ok (hex v)
    /\ (v < 2 ^ Z.to_N 3)%N
    /\ (forall q c,
           In (q, c) [(0, 2); (2, 0)] ->
           N.testbit v (Z.to_N (3 - 1 - c)) = N.testbit 6 (Z.to_N (Z.of_nat 3 - 1 - q)))
    /\ (forall c,
           0 <= c < 3 ->
           ~ In c (map snd [(0, 2); (2, 0)]) ->
           N.testbit v (Z.to_N (3 - 1 - c)) = false).
Proof.
  apply (projection_copies_measured_bits 6
           {| measurements := [(0, 2); (2, 0)]; number_of_clbits := 3 |} 3).
  - reflexivity.
  - simpl. lia.
  - repeat constructor; simpl; lia.
  - simpl. repeat constructor; simpl; intuition lia.
Defined.

Lemma high_bits_below_pow2 (x n j : N) : (x < 2 ^ n)%N -> (n <= j)%N -> N.testbit x j = false.
Proof.
  intros Hx Hj. destruct (N.eq_dec x 0) as [-> | Hnz]; [apply N.bits_0 | ].
  apply N.bits_above_log2. apply N.log2_lt_pow2 in Hx; lia.
Qed.

Lemma collect_measurements_measures (e : QobjExperiment) :
  filter is_measure (instructions e) <> [] ->
  (forall m, In m (filter is_measure (instructions e)) ->
             qubits m <> [] /\ memory m <> []) ->
  _collect_measurements e
  = Ok {| measurements :=
            map (stored_pair (n_qubits (header e)) (memory_slots (header e)))
                (filter is_measure (instructions e));
          number_of_clbits := memory_slots (header e) |}.
Proof.
  intros Hsome Hwf. unfold _collect_measurements.
  rewrite (comprehension_measurements _ _ _ Hwf). simpl.
  destruct (filter is_measure (instructions e)); [congruence | reflexivity].
Qed.

(** X2.  From the circuit to the classical state: when every [measure]
    instruction of an experiment measures a qubit below [n_qubits] into a
    classical bit below [memory_slots] and no classical bit is the target of
    two of them, the map of [_collect_measurements] makes
    [__qubit_to_classical_hex] copy, for each [measure] instruction, the bit of
    the measured qubit of the register into the bit of its classical bit, and
    leave every other classical bit at 0. *)
Theorem measured_qubits_reach_their_clbits (e : QobjExperiment) (k : N) :
  let nq := n_qubits (header e) in
  let nc := memory_slots (header e) in
  let measures := filter is_measure (instructions e) in
  measures <> [] ->
  (forall m, In m measures ->
             qubits m <> [] /\ memory m <> []
             /\ 0 <= hd 0 (qubits m) < nq /\ 0 <= hd 0 (memory m) < nc) ->
  NoDup (map (fun m => hd 0 (memory m)) measures) ->
  (k < 2 ^ Z.to_N nq)%N ->
  exists mm v,
    _collect_measurements e = Ok mm
    /\ __qubit_to_classical_hex k mm (Z.to_nat nq) = Ok (hex v)
    /\ (v < 2 ^ Z.to_N nc)%N
    /\ (forall m, In m measures ->
                  N.testbit v (Z.to_N (hd 0 (memory m)))
                  = N.testbit k (Z.to_N (hd 0 (qubits m))))
    /\ (forall c, 0 <= c < nc ->
                  (forall m, In m measures -> hd 0 (memory m) <> c) ->
                  N.testbit v (Z.to_N c) = false).
Proof.
  intros nq nc measures Hsome Hwf Hnd Hk.
  set (mm := {| measurements := map (stored_pair nq nc) measures;
                number_of_clbits := nc |}).
  assert (_collect_measurements e = Ok mm) as Hcollect.
  { apply collect_measurements_measures; [exact Hsome | ].
    intros m Hm. destruct (Hwf m Hm) as (? & ? & _). auto. }
  assert (1 <= nc) as Hnc.
  { destruct measures as [ | m0 ms] eqn:Hms; [congruence | ].
    destruct (Hwf m0 (or_introl eq_refl)) as (_ & _ & _ & ?). lia. }
  destruct (qubit_to_classical_hex_bits k mm (Z.to_nat nq)) as (v & Hv & Hlt & Hbits & Hzero).
  - replace (N.of_nat (Z.to_nat nq)) with (Z.to_N nq) by lia. exact Hk.
  - exact Hnc.
  - unfold positions_in_range. simpl. apply Forall_forall. intros [q c] Hin.
    apply in_map_iff in Hin as (m & Heq & Hm). injection Heq as <- <-.
    destruct (Hwf m Hm) as (_ & _ & Hq & Hc). simpl. lia.
  - simpl. rewrite map_map.
    replace (map (fun x => snd (stored_pair nq nc x)) measures)
      with (map (fun c => nc - 1 - c) (map (fun m => hd 0 (memory m)) measures))
      by (rewrite map_map; reflexivity).
    apply Finite.Injective_map_NoDup; [ | exact Hnd]. intros a b Hab. lia.
  - exists mm, v. split; [exact Hcollect | split; [exact Hv | split; [exact Hlt | split]]].
    + intros m Hm. destruct (Hwf m Hm) as (_ & _ & Hq & Hc).
      specialize (Hbits (nq - 1 - hd 0 (qubits m)) (nc - 1 - hd 0 (memory m))).
      simpl in Hbits.
      replace (nc - 1 - (nc - 1 - hd 0 (memory m))) with (hd 0 (memory m)) in Hbits by lia.
      replace (Z.of_nat (Z.to_nat nq) - 1 - (nq - 1 - hd 0 (qubits m)))
        with (hd 0 (qubits m)) in Hbits by lia.
      apply Hbits. apply in_map_iff. exists m. split; [reflexivity | exact Hm].
    + intros c Hc Hfree. specialize (Hzero (nc - 1 - c)). simpl in Hzero.
      replace (nc - 1 - (nc - 1 - c)) with c in Hzero by lia.
      apply Hzero; [lia | ]. intros Hin.
      apply in_map_iff in Hin as ([q' c'] & Heq & Hin). simpl in Heq.
      apply in_map_iff in Hin as (m & Hpair & Hm). injection Hpair as _ Hc'.
      apply (Hfree m Hm). lia.
Qed.

Lemma collect_measurements_identity (e : QobjExperiment) :
  filter is_measure (instructions e) = [] ->
  _collect_measurements e
  = Ok {| measurements := map (fun index => (index, index)) (range (n_qubits (header e)));
          number_of_clbits := memory_slots (header e) |}.
Proof. intros Hnone. unfold _collect_measurements. now rewrite Hnone. Qed.

Lemma In_range (i n : Z) : In i (range n) <-> 0 <= i < n.
Proof.
  unfold range. rewrite in_map_iff. split.
  - intros (x & <- & Hx). apply in_seq in Hx. lia.
  - intros Hi. exists (Z.to_nat i). split; [lia | ]. apply in_seq. lia.
Qed.

Lemma NoDup_range (n : Z) : NoDup (range n).
Proof.
  unfold range. apply Finite.Injective_map_NoDup; [ | apply seq_NoDup].
  intros a b Hab. lia.
Qed.

(** The projection of a register on the identity map. *)
Lemma identity_map_projection (nq nc : Z) (k : N) :
  0 <= nq <= nc ->
  1 <= nc ->
  (k < 2 ^ Z.to_N nq)%N ->
  __qubit_to_classical_hex k
    {| measurements := map (fun index => (index, index)) (range nq);
       number_of_clbits := nc |}
    (Z.to_nat nq)
  = Ok (hex (k * 2 ^ Z.to_N (nc - nq))).
Proof.
  intros Hnq Hnc Hk.
  set (mm := {| measurements := map (fun index => (index, index)) (range nq);
                number_of_clbits := nc |}).
  destruct (qubit_to_classical_hex_bits k mm (Z.to_nat nq))
    as (v & Hv & Hlt & Hbits & Hzero).
  - replace (N.of_nat (Z.to_nat nq)) with (Z.to_N nq) by lia. exact Hk.
  - exact Hnc.
  - unfold positions_in_range. simpl. apply Forall_forall. intros [q c] Hin.
    apply in_map_iff in Hin as (i & [= <- <-] & Hi). apply In_range in Hi. simpl. lia.
  - simpl. rewrite map_map. simpl. rewrite map_id. apply NoDup_range.
  - rewrite Hv. f_equal. f_equal. simpl in Hlt, Hbits, Hzero.
    apply N.bits_inj. intros j. rewrite <- N.shiftl_mul_pow2.
    destruct (N.lt_ge_cases j (Z.to_N nc)) as [Hjlt | Hjge].
    + destruct (N.lt_ge_cases j (Z.to_N (nc - nq))) as [Hlow | Hhigh].
      * rewrite N.shiftl_spec_low by exact Hlow.
        specialize (Hzero (nc - 1 - Z.of_N j)).
        replace (Z.to_N (nc - 1 - (nc - 1 - Z.of_N j))) with j in Hzero by lia.
        apply Hzero; [lia | ]. rewrite map_map. simpl. rewrite map_id.
        rewrite In_range. lia.
      * rewrite N.shiftl_spec_high' by exact Hhigh.
        specialize (Hbits (nc - 1 - Z.of_N j) (nc - 1 - Z.of_N j)).
        replace (Z.to_N (nc - 1 - (nc - 1 - Z.of_N j))) with j in Hbits by lia.
        rewrite Hbits.
        -- f_equal. lia.
        -- apply in_map_iff. exists (nc - 1 - Z.of_N j).
           split; [reflexivity | ]. apply In_range. lia.
    + rewrite (high_bits_below_pow2 v _ j Hlt Hjge).
      rewrite N.shiftl_spec_high' by lia. symmetry.
      apply (high_bits_below_pow2 k _ _ Hk). lia.
Qed.

(** X3.  Full-state projection: for an experiment without [measure]
    instruction whose qubits are not more than its classical bits, the
    identity map of [_collect_measurements] aligns the register on the most
    significant classical bits: a register k below 2^n_qubits is returned as
    hex(k * 2^(memory_slots - n_qubits)), which is hex(k) when the two numbers
    are equal and, for a register other than 0, only then. *)
Theorem full_state_projection (e : QobjExperiment) (k : N) :
  let nq := n_qubits (header e) in
  let nc := memory_slots (header e) in
  filter is_measure (instructions e) = [] ->
  0 <= nq <= nc ->
  1 <= nc ->
  (k < 2 ^ Z.to_N nq)%N ->
  exists mm,
    _collect_measurements e = Ok mm
    /\ __qubit_to_classical_hex k mm (Z.to_nat nq) = Ok (hex (k * 2 ^ Z.to_N (nc - nq)))
    /\ (nq = nc -> __qubit_to_classical_hex k mm (Z.to_nat nq) = Ok (hex k))
    /\ (k <> 0%N -> __qubit_to_classical_hex k mm (Z.to_nat nq) = Ok (hex k) -> nq = nc).
Proof.
  intros nq nc Hnone Hnq Hnc Hk.
  pose proof (identity_map_projection nq nc k Hnq Hnc Hk) as Hproj.
  eexists. split; [now apply collect_measurements_identity | ].
  split; [exact Hproj | split].
  - intros Heq. fold nq nc. rewrite Hproj. f_equal. f_equal.
    replace (nc - nq) with 0 by lia. simpl. lia.
  - intros Hk0 Hhex. fold nq nc in Hhex. rewrite Hproj in Hhex.
    assert (hex (k * 2 ^ Z.to_N (nc - nq)) = hex k) as Heq by congruence.
    apply hex_inj in Heq.
    assert (Z.to_N (nc - nq) = 0%N) as Hzero; [ | lia].
    destruct (N.eq_dec (Z.to_N (nc - nq)) 0) as [H0 | H0]; [exact H0 | exfalso].
    assert (2 ^ 1 <= 2 ^ Z.to_N (nc - nq))%N as Hpow by (apply N.pow_le_mono_r; lia).
    change (2 ^ 1)%N with 2%N in Hpow. nia.
Qed.

Lemma full_state_projection_witness :
  exists mm,
    _collect_measurements
      {| header := {| n_qubits := 2; memory_slots := 3; header_name := "circuit0";
                      creg_sizes := [("c", 3)] |};
         instructions := [gate "h" [0]] |} = Ok mm
    /\ __qubit_to_classical_hex 3 mm (Z.to_nat 2) = Ok (hex (3 * 2 ^ Z.to_N (3 - 2)))
    /\ (2 = 3 -> __qubit_to_classical_hex 3 mm (Z.to_nat 2) = Ok (hex 3))
    /\ (3%N <> 0%N -> __qubit_to_classical_hex 3 mm (Z.to_nat 2) = Ok (hex 3) -> 2 = 3).
Proof.
  apply (full_state_projection
           {| header := {| n_qubits := 2; memory_slots := 3; header_name := "circuit0";
                           creg_sizes := [("c", 3)] |};
              instructions := [gate "h" [0]] |} 3).
  - reflexivity.
  - simpl. lia.
  - simpl. lia.
  - reflexivity.
Defined.

Example full_state_projection_shifts :
  __qubit_to_classical_hex 3
    {| measurements := [(0, 0); (1, 1)]; number_of_clbits := 3 |} 2 = Ok "0x6".
Proof. reflexivity. Qed.

Lemma py_getitem_raises {A : Type} (l : list A) (i : Z) (e : exception) :
  py_getitem l i = Raise e -> e = IndexError.
Proof.
  unfold py_getitem. destruct (_ && _); [destruct (nth_error _ _) | ];
    intros H; try discriminate; now injection H.
Qed.

(** X4.  An experiment without [measure] instruction that has more qubits
    than classical bits cannot be converted: on the identity map of
    [_collect_measurements], [__qubit_to_classical_hex] raises [IndexError] for
    every register. *)
Theorem identity_map_needs_enough_clbits (e : QobjExperiment) :
  let nq := n_qubits (header e) in
  let nc := memory_slots (header e) in
  filter is_measure (instructions e) = [] ->
  0 <= nc < nq ->
  exists mm,
    _collect_measurements e = Ok mm
    /\ forall k, __qubit_to_classical_hex k mm (Z.to_nat nq) = Raise IndexError.
Proof.
  intros nq nc Hnone Hnc.
  exists {| measurements := map (fun index => (index, index)) (range nq);
            number_of_clbits := nc |}.
  split; [now apply collect_measurements_identity | ].
  intros k. unfold __qubit_to_classical_hex. cbn [measurements number_of_clbits].
  set (qs := format_0b k (Z.to_nat nq)).
  assert (Z.to_nat nq <= List.length qs)%nat as Hlenq by apply format_0b_spec.
  assert (range nq
          = (range nc ++ nc :: map Z.of_nat (seq (S (Z.to_nat nc))
                                                 (Z.to_nat nq - S (Z.to_nat nc))))%list)
    as Hsplit.
  { unfold range.
    replace (Z.to_nat nq) with (Z.to_nat nc + S (Z.to_nat nq - S (Z.to_nat nc)))%nat
      at 1 by lia.
    rewrite seq_app, map_app. simpl. f_equal. f_equal. lia. }
  rewrite Hsplit, map_app, for_each_app.
  rewrite copy_bits_loop.
  - cbn [bind map for_each].
    rewrite (py_getitem_nat qs nc "0"%char) by lia. cbn [bind].
    rewrite py_setitem_out_of_range; [reflexivity | ].
    rewrite length_copy_bits, repeat_length. lia.
  - apply Forall_forall. intros [q c] Hin.
    apply in_map_iff in Hin as (i & [= <- <-] & Hi). apply In_range in Hi.
    rewrite repeat_length. simpl. lia.
Qed.

Lemma identity_map_needs_enough_clbits_witness :
  exists mm,
    _collect_measurements
      {| header := {| n_qubits := 2; memory_slots := 1; header_name := "circuit0";
                      creg_sizes := [("c", 1)] |};
         instructions := [gate "h" [0]] |} = Ok mm
    /\ forall k, __qubit_to_classical_hex k mm (Z.to_nat 2) = Raise IndexError.
Proof.
  apply (identity_map_needs_enough_clbits
           {| header := {| n_qubits := 2; memory_slots := 1; header_name := "circuit0";
                           creg_sizes := [("c", 1)] |};
              instructions := [gate "h" [0]] |}).
  - reflexivity.
  - simpl. lia.
Defined.

Lemma py_setitem_nil {A : Type} (i : Z) (x : A) : py_setitem [] i x = Raise IndexError.
Proof.
  unfold py_setitem. cbn [List.length].
  destruct (Z.ltb_spec i 0) as [Hneg | Hpos].
  - destruct (Z.leb_spec 0 (i + Z.of_nat 0)); [lia | reflexivity].
  - destruct (Z.ltb_spec i (Z.of_nat 0)); [lia | now rewrite andb_false_r].
Qed.

(** X5.  Without classical bits the projection never returns: when
    [number_of_clbits] is 0 or less, [__qubit_to_classical_hex] raises
    [ValueError] on an empty map (the empty string is no number) and
    [IndexError] on any other map, whatever the register. *)
Theorem projection_needs_a_classical_bit (k : N) (m : Measurements) (nq : nat) :
  number_of_clbits m <= 0 ->
  __qubit_to_classical_hex k m nq
  = Raise (match measurements m with
           | [] => ValueError
           | _ :: _ => IndexError
           end).
Proof.
  intros Hnc. unfold __qubit_to_classical_hex.
  replace (Z.to_nat (number_of_clbits m)) with 0%nat by lia. simpl repeat.
  destruct (measurements m) as [ | [q c] ms]; [reflexivity | ].
  cbn [for_each]. destruct (py_getitem (format_0b k nq) q) as [bit | e] eqn:Hget.
  - cbn [bind]. now rewrite py_setitem_nil.
  - apply py_getitem_raises in Hget. now subst.
Qed.

Lemma projection_needs_a_classical_bit_witness :
  __qubit_to_classical_hex 3 {| measurements := [(0, 0)]; number_of_clbits := 0 |} 2
  = Raise IndexError.
Proof.
  apply (projection_needs_a_classical_bit 3
           {| measurements := [(0, 0)]; number_of_clbits := 0 |} 2).
  simpl. lia.
Defined.

(** ** Counts and memory data *)

Lemma dict_get_Some_In {V : Type} (d : list (string * V)) (k : string) (v : V) :
  dict_get d k = Some v -> In (k, v) d.
Proof.
  induction d as [ | [k0 v0] d IH]; simpl; [discriminate | ].
  destruct (String.eqb_spec k k0) as [-> | _].
  - intros [= ->]. now left.
  - intros H. right. now apply IH.
Qed.

Lemma dict_get_None {V : Type} (d : list (string * V)) (k : string) :
  dict_get d k = None <-> ~ In k (map fst d).
Proof.
  induction d as [ | [k0 v0] d IH]; simpl; [tauto | ].
  destruct (String.eqb_spec k k0) as [-> | Hne].
  - split; [discriminate | intros H; exfalso; apply H; now left].
  - rewrite IH. split; [intros H [Heq | Hin]; [congruence | contradiction] | tauto].
Qed.

Lemma dict_get_perm {V : Type} (d d' : list (string * V)) (k : string) :
  NoDup (map fst d) -> Permutation d d' -> dict_get d k = dict_get d' k.
Proof.
  intros Hnd Hperm.
  assert (NoDup (map fst d')) as Hnd'
      by (eapply Permutation_NoDup; [apply Permutation_map; exact Hperm | exact Hnd]).
  destruct (dict_get d k) as [v | ] eqn:Hget.
  - apply dict_get_Some_In in Hget. symmetry. apply dict_get_In; [exact Hnd' | ].
    eapply Permutation_in; eassumption.
  - symmetry. apply dict_get_None. apply dict_get_None in Hget. intros Hin. apply Hget.
    eapply Permutation_in; [apply Permutation_map, Permutation_sym; exact Hperm | exact Hin].
Qed.

Lemma dict_set_total_count (d : list (string * Z)) (k : string) (v : Z) :
  total_count (dict_set d k v) = total_count d - defaultdict_get 0 d k + v.
Proof.
  unfold defaultdict_get. induction d as [ | [k0 v0] d IH]; simpl; [lia | ].
  destruct (String.eqb k k0); simpl; [lia | ]. rewrite IH. lia.
Qed.

Lemma total_count_perm {K : Type} (h h' : list (K * Z)) :
  Permutation h h' -> total_count h = total_count h'.
Proof.
  induction 1 as [ | x l l' _ IH | x y l | l l' l'' _ IH1 _ IH2]; simpl; lia.
Qed.

Lemma Counter_from (xs : list string) (d : list (string * Z)) (key : string) :
  let d' := fold_left (fun d x => dict_set d x (defaultdict_get 0 d x + 1)) xs d in
  defaultdict_get 0 d' key = defaultdict_get 0 d key + occurrences xs key
  /\ (In key (map fst d') <-> In key (map fst d) \/ In key xs)
  /\ total_count d' = total_count d + Z.of_nat (List.length xs).
Proof.
  unfold occurrences. revert d. induction xs as [ | x xs IH]; intros d; cbn zeta.
  - simpl. repeat split; try lia; tauto.
  - cbn [fold_left]. destruct (IH (dict_set d x (defaultdict_get 0 d x + 1)))
      as (Hget & Hkeys & Htotal).
    split; [ | split].
    + rewrite Hget. unfold defaultdict_get at 1. rewrite dict_get_set.
      cbn [count_occ]. destruct (string_dec x key) as [-> | Hne].
      * rewrite String.eqb_refl. unfold defaultdict_get. lia.
      * destruct (String.eqb_spec key x) as [-> | _]; [congruence | ].
        unfold defaultdict_get. lia.
    + rewrite Hkeys. split.
      * intros [Hin | Hin]; [ | right; now right].
        apply dict_set_keys in Hin as [-> | Hin]; [right; now left | now left].
      * intros [Hin | [<- | Hin]]; [left | left | now right].
        -- destruct (dict_get (dict_set d x (defaultdict_get 0 d x + 1)) key) eqn:Hg.
           ++ apply dict_get_Some_In in Hg. now apply (in_map fst) in Hg.
           ++ exfalso. rewrite dict_get_set in Hg.
              destruct (String.eqb key x); [discriminate | ].
              apply dict_get_None in Hg. contradiction.
        -- destruct (dict_get (dict_set d x (defaultdict_get 0 d x + 1)) x) eqn:Hg.
           ++ apply dict_get_Some_In in Hg. now apply (in_map fst) in Hg.
           ++ rewrite dict_get_set, String.eqb_refl in Hg. discriminate.
    + rewrite Htotal, dict_set_total_count. cbn [List.length]. lia.
Qed.

Lemma dict_set_new {V : Type} (d : list (string * V)) (k : string) (v : V) :
  ~ In k (map fst d) -> dict_set d k v = (d ++ [(k, v)])%list.
Proof.
  induction d as [ | [k0 v0] d IH]; simpl; intros Hk; [reflexivity | ].
  destruct (String.eqb_spec k k0) as [-> | _]; [exfalso; apply Hk; now left | ].
  rewrite IH; [reflexivity | ]. intros Hin. apply Hk. now right.
Qed.

Lemma fold_dict_set_copy {V : Type} (items d : list (string * V)) :
  NoDup (map fst (d ++ items)) ->
  fold_left (fun d '(elem, count) => dict_set d elem count) items d = (d ++ items)%list.
Proof.
  revert d. induction items as [ | [k v] items IH]; intros d Hnd; simpl.
  - now rewrite app_nil_r.
  - rewrite dict_set_new.
    + rewrite IH; rewrite <- app_assoc; [reflexivity | exact Hnd].
    + rewrite map_app in Hnd. simpl in Hnd. apply NoDup_remove_2 in Hnd.
      intros Hin. apply Hnd. apply in_or_app. now left.
Qed.

Lemma append_shot_trace (m : Measurements) (nq : nat) (raw_data : list N)
  (memory_data memory_data' : list string) :
  for_each (append_shot m nq) raw_data memory_data = Ok memory_data' ->
  exists new,
    memory_data' = (memory_data ++ new)%list
    /\ Forall2 (fun k key => __qubit_to_classical_hex k m nq = Ok key) raw_data new.
Proof.
  revert memory_data. induction raw_data as [ | k raw IH]; simpl; intros md H.
  - injection H as <-. exists []. rewrite app_nil_r. split; constructor.
  - apply bind_Ok in H as (md1 & Hstep & H).
    apply bind_Ok in Hstep as (key & Hkey & Hstep). injection Hstep as <-.
    apply IH in H as (new & -> & Hnew). exists (key :: new).
    rewrite <- app_assoc. split; [reflexivity | now constructor].
Qed.

(** X6.  With raw data, [__convert_result_data] gives one hexadecimal
    classical state per shot, in the order of the shots, each the projection
    of the register of its shot; the count histogram has no key twice, its keys
    are the classical states of the memory data, the count of a state is the
    number of its occurrences in the memory data, and the counts add up to the
    number of shots.  The random generator is not used. *)
Theorem raw_data_counts_follow_memory (order : AttributeOrder)
  (api : QuantumInspireApi) (res : Result)
  (m : Measurements) (rng rng' : RandomState) (counts : list (string * Z))
  (memory_data : list string) :
  get_raw_data api (format_d (result_id res)) <> [] ->
  __convert_result_data order api res m rng = Ok (counts, memory_data, rng') ->
  rng' = rng
  /\ Forall2 (fun k key => __qubit_to_classical_hex k m (number_of_qubits res) = Ok key)
       (get_raw_data api (format_d (result_id res))) memory_data
  /\ NoDup (map fst counts)
  /\ (forall key, In key (map fst counts) <-> In key memory_data)
  /\ (forall key, defaultdict_get 0 counts key = occurrences memory_data key)
  /\ total_count counts = Z.of_nat (List.length (get_raw_data api (format_d (result_id res)))).
Proof.
  intros Hraw H. unfold __convert_result_data in H.
  destruct (get_raw_data api (format_d (result_id res))) as [ | k0 raw] eqn:Hdata;
    [congruence | ].
  apply bind_Ok in H as ([[hd md] rng1] & Hbranch & H).
  apply bind_Ok in Hbranch as (md' & Hloop & Hbranch). injection Hbranch as <- <- <-.
  apply bind_Ok in H as (sorted & Hsorted & H). injection H as <- <- <-.
  apply append_shot_trace in Hloop as (new & Heq & Htrace). simpl in Heq. subst md'.
  pose proof (Counter_good_keys (fun _ => True) new
                (proj2 (Forall_forall _ _) (fun _ _ => I))) as [Hnd _].
  rewrite (fold_dict_set_copy (Counter new) []) in Hsorted by exact Hnd.
  cbn [app] in Hsorted.
  apply sorted_by_key_spec in Hsorted as (keyed & _ & Hperm & _).
  apply (fun H => Permutation_trans H (Obj_from_dict_perm order sorted)) in Hperm.
  assert (forall key, dict_get (Obj_from_dict order sorted) key = dict_get (Counter new) key)
    as Hget.
  { intros key. symmetry. now apply dict_get_perm. }
  split; [reflexivity | split; [exact Htrace | split; [ | split; [ | split]]]].
  - eapply Permutation_NoDup; [apply Permutation_map; exact Hperm | exact Hnd].
  - intros key.
    destruct (Counter_from new [] key) as (_ & Hkeys & _). cbn zeta in Hkeys.
    fold (Counter new) in Hkeys. simpl in Hkeys.
    split.
    + intros Hin. apply (Permutation_in _ (Permutation_map fst (Permutation_sym Hperm)))
        in Hin. tauto.
    + intros Hin. apply (Permutation_in _ (Permutation_map fst Hperm)). tauto.
  - intros key. unfold defaultdict_get. rewrite Hget.
    destruct (Counter_from new [] key) as (Hcount & _ & _). cbn zeta in Hcount.
    fold (Counter new) in Hcount. unfold defaultdict_get in Hcount at 1 2.
    simpl in Hcount. exact Hcount.
  - rewrite <- (total_count_perm _ _ Hperm).
    destruct (Counter_from new [] "") as (_ & _ & Htotal). cbn zeta in Htotal.
    fold (Counter new) in Htotal. rewrite Htotal. simpl.
    apply Forall2_length in Htrace. simpl in Htrace. lia.
Qed.

Lemma raw_data_counts_follow_memory_witness :
  constant_rng 0.25%float = constant_rng 0.25%float
  /\ Forall2 (fun k key => __qubit_to_classical_hex k identity_map_2
                             (number_of_qubits bell_result) = Ok key)
       (get_raw_data bell_api (format_d (result_id bell_result))) ["0x3"; "0x0"; "0x3"]
  /\ NoDup (map fst [("0x0", 1); ("0x3", 2)])
  /\ (forall key, In key (map fst [("0x0", 1); ("0x3", 2)])
                  <-> In key ["0x3"; "0x0"; "0x3"])
  /\ (forall key, defaultdict_get 0 [("0x0", 1); ("0x3", 2)] key
                  = occurrences ["0x3"; "0x0"; "0x3"] key)
  /\ total_count [("0x0", 1); ("0x3", 2)]
     = Z.of_nat (List.length (get_raw_data bell_api (format_d (result_id bell_result)))).
Proof.
  apply (raw_data_counts_follow_memory dictionary_order bell_api bell_result identity_map_2
           (constant_rng 0.25%float)).
  - discriminate.
  - reflexivity.
Defined.

(** ** The keys of the probability histogram *)

Lemma dict_set_keys_iff {V : Type} (d : list (string * V)) (k k' : string) (v : V) :
  In k' (map fst (dict_set d k v)) <-> k' = k \/ In k' (map fst d).
Proof.
  split; [apply dict_set_keys | ].
  intros H. destruct (dict_get (dict_set d k v) k') eqn:Hg.
  - apply dict_get_Some_In in Hg. now apply (in_map fst) in Hg.
  - exfalso. rewrite dict_get_set in Hg.
    destruct (String.eqb_spec k' k) as [-> | Hne]; [discriminate | ].
    apply dict_get_None in Hg. destruct H; [congruence | contradiction].
Qed.

Lemma add_probability_keys (m : Measurements) (nq : nat) (h : list (N * float))
  (out out' : list (string * float)) (key : string) :
  for_each (add_probability m nq) h out = Ok out' ->
  In key (map fst out')
  <-> In key (map fst out)
      \/ exists k p, In (k, p) h /\ __qubit_to_classical_hex k m nq = Ok key.
Proof.
  revert out. induction h as [ | [k p] h IH]; simpl; intros out H.
  - injection H as <-. split; [auto | intros [Hin | (k & p & [] & _)]; exact Hin].
  - apply bind_Ok in H as (out1 & Hstep & H).
    apply bind_Ok in Hstep as (key' & Hkey & Hstep). injection Hstep as <-.
    rewrite (IH _ H), dict_set_keys_iff. split.
    + intros [[-> | Hin] | (k1 & p1 & Hin & Hk1)]; [right | now left | right].
      * exists k, p. split; [now left | exact Hkey].
      * exists k1, p1. split; [now right | exact Hk1].
    + intros [Hin | (k1 & p1 & [[= <- <-] | Hin] & Hk1)].
      * left. now right.
      * left. left. congruence.
      * right. exists k1, p1. split; assumption.
Qed.

(** X7.  The histogram of probabilities has no key twice, and its keys are
    exactly the classical states of the registers of the input histogram: no
    register is dropped and no key is made up. *)
Theorem convert_histogram_keys (order : AttributeOrder) (res : Result) (m : Measurements)
  (state_probability : list (N * float)) (probabilities : list (string * float)) :
  histogram res = Some state_probability ->
  __convert_histogram order res m = Ok probabilities ->
  NoDup (map fst probabilities)
  /\ (forall key,
         In key (map fst probabilities)
         <-> exists k p,
               In (k, p) state_probability
               /\ __qubit_to_classical_hex k m (number_of_qubits res) = Ok key).
Proof.
  intros Hh H.
  destruct (convert_histogram_Ok _ _ _ _ _ Hh H) as (out & sorted & Hloop & Hsorted & ->).
  pose proof (add_probability_good_keys _ _ _ _ _ (good_keys_nil _) Hloop) as [Hnd _].
  apply sorted_by_key_spec in Hsorted as (keyed & _ & Hperm & _).
  apply (fun H => Permutation_trans H (Obj_from_dict_perm order sorted)) in Hperm.
  split.
  - eapply Permutation_NoDup; [apply Permutation_map; exact Hperm | exact Hnd].
  - intros key. pose proof (add_probability_keys _ _ _ _ _ key Hloop) as Hkeys.
    simpl in Hkeys. split.
    + intros Hin.
      apply (Permutation_in _ (Permutation_map fst (Permutation_sym Hperm))) in Hin.
      apply Hkeys in Hin as [[] | Hex]. exact Hex.
    + intros Hex. apply (Permutation_in _ (Permutation_map fst Hperm)).
      apply Hkeys. now right.
Qed.

Lemma convert_histogram_keys_witness :
  NoDup (map fst [("0x0", 0.5%float); ("0x3", 0.5%float)])
  /\ (forall key,
         In key (map fst [("0x0", 0.5%float); ("0x3", 0.5%float)])
         <-> exists k p,
               In (k, p) [(0%N, 0.5%float); (3%N, 0.5%float)]
               /\ __qubit_to_classical_hex k identity_map_2 (number_of_qubits bell_result)
                  = Ok key).
Proof.
  apply (convert_histogram_keys dictionary_order bell_result identity_map_2).
  - reflexivity.
  - reflexivity.
Defined.

(** ** The single shot without sample *)

(** X8.  When the raw data is empty and no cumulative probability of the
    histogram exceeds the number drawn, the probabilities being added one
    after the other in binary64 in the order of the histogram,
    [__convert_result_data] returns no sample at all: the memory data and the
    count histogram are both empty, one random number has been drawn, and the
    measurement map is not used. *)
Theorem single_shot_without_sample (order : AttributeOrder) (api : QuantumInspireApi)
  (res : Result) (m : Measurements) (rng : RandomState)
  (state_probabilities : list (N * float)) :
  get_raw_data api (format_d (result_id res)) = [] ->
  histogram res = Some state_probabilities ->
  none_exceeding (draws rng (drawn rng)) 0 state_probabilities ->
  __convert_result_data order api res m rng
  = Ok ([], [], {| draws := draws rng; drawn := S (drawn rng) |}).
Proof.
  intros Hraw Hh Hnone. unfold __convert_result_data. rewrite Hraw.
  unfold getitem_histogram. rewrite Hh. cbn [bind np_random_rand].
  rewrite (single_shot_loop_no_sample _ _ _ _ _ Hnone). cbn.
  now rewrite Obj_from_dict_nil.
Qed.

Lemma single_shot_without_sample_witness :
  __convert_result_data dictionary_order single_shot_api half_result
    {| measurements := [(5, 5)]; number_of_clbits := 0 |} (constant_rng 0.75%float)
  = Ok ([], [], {| draws := fun _ => 0.75%float; drawn := 1 |}).
Proof.
  apply (single_shot_without_sample dictionary_order single_shot_api half_result
           {| measurements := [(5, 5)]; number_of_clbits := 0 |} (constant_rng 0.75%float)
           [(0%N, 0.5%float)]).
  - reflexivity.
  - reflexivity.
  - apply none_exceeding_cons. split; [reflexivity | apply none_exceeding_nil].
Defined.

(** ** The random numbers drawn for the results of a job *)

Lemma convert_result_data_rng (order : AttributeOrder)
  (api : QuantumInspireApi) (res : Result) (m : Measurements)
  (rng rng' : RandomState) (counts : list (string * Z)) (memory_data : list string) :
  __convert_result_data order api res m rng = Ok (counts, memory_data, rng') ->
  draws rng' = draws rng
  /\ drawn rng'
     = (drawn rng
        + match get_raw_data api (format_d (result_id res)) with
          | [] => 1
          | _ :: _ => 0
          end)%nat.
Proof.
  unfold __convert_result_data. intros H.
  apply bind_Ok in H as ([[hd md] rng1] & Hbranch & H).
  apply bind_Ok in H as (sorted & _ & H). injection H as _ _ <-.
  destruct (get_raw_data api (format_d (result_id res))) as [ | k raw].
  - apply bind_Ok in Hbranch as (h & _ & Hbranch). simpl in Hbranch.
    apply bind_Ok in Hbranch as ([hd' md'] & _ & Hbranch). injection Hbranch as _ _ <-.
    simpl. split; [reflexivity | lia].
  - apply bind_Ok in Hbranch as (md' & _ & Hbranch). injection Hbranch as _ _ <-.
    split; [reflexivity | lia].
Qed.

Lemma results_loop_rng (order : AttributeOrder) (api : QuantumInspireApi) (jobs : list Job)
  (done ers : list ExperimentResult) (rng rng' : RandomState) :
  for_each (append_experiment_result order api) (results_and_jobs api jobs) (done, rng)
  = Ok (ers, rng') ->
  draws rng' = draws rng
  /\ drawn rng' = (drawn rng + List.length (filter (without_raw_data api) jobs))%nat.
Proof.
  rewrite results_and_jobs_map. revert done rng.
  induction jobs as [ | job jobs IH]; intros done rng; simpl.
  - intros [= _ <-]. split; [reflexivity | lia].
  - intros H. apply bind_Ok in H as ([done1 rng1] & Hstep & Hrest).
    apply bind_Ok in Hstep as ([er rng2] & Her & Hstep). injection Hstep as _ <-.
    apply IH in Hrest as [Hdraws Hdrawn].
    unfold experiment_result in Her.
    destruct (histogram_is_empty _); [discriminate | ].
    apply bind_Ok in Her as ([[h md] rng3] & Hconv & Her).
    apply bind_Ok in Her as (fs & _ & Her). injection Her as _ <-.
    apply convert_result_data_rng in Hconv as [Hd1 Hd2].
    rewrite Hdraws, Hdrawn, Hd1, Hd2. unfold without_raw_data.
    destruct (get_raw_data api _); simpl; split; try reflexivity; lia.
Qed.

(** X9.  [get_experiment_results] draws one random number for each job
    whose result has no raw data and none for the others: when it returns, the
    generator has advanced by the number of jobs without raw data. *)
Theorem one_draw_per_single_shot_job (order : AttributeOrder)
  (api : QuantumInspireApi) (job_id : string)
  (rng rng' : RandomState) (ers : list ExperimentResult) :
  get_experiment_results order api job_id rng = Ok (ers, rng') ->
  draws rng' = draws rng
  /\ drawn rng'
     = (drawn rng
        + List.length (filter (without_raw_data api) (get_jobs_from_project api job_id)))%nat.
Proof. unfold get_experiment_results. apply results_loop_rng. Qed.

Lemma one_draw_per_single_shot_job_witness :
  exists ers rng',
    get_experiment_results dictionary_order single_shot_api "1" (constant_rng 0.25%float)
    = Ok (ers, rng')
    /\ draws rng' = draws (constant_rng 0.25%float)
    /\ drawn rng'
       = (drawn (constant_rng 0.25%float)
          + List.length (filter (without_raw_data single_shot_api)
                           (get_jobs_from_project single_shot_api "1")))%nat.
Proof.
  eexists. eexists. split.
  - vm_compute. reflexivity.
  - eapply (one_draw_per_single_shot_job dictionary_order single_shot_api "1"
              (constant_rng 0.25%float)).
    vm_compute. reflexivity.
Defined.

(** ** The calls of a submission *)

Lemma submit_experiment_call (P : CircuitToString) (experiment : QobjExperiment)
  (number_of_shots : Z) (call : ApiCall) :
  _submit_experiment P experiment number_of_shots = Ok call
  <-> submission_of P number_of_shots experiment call.
Proof.
  unfold _submit_experiment, submission_of. split.
  - intros H. apply bind_Ok in H as (qasm & Hq & H).
    apply bind_Ok in H as (mm & Hm & H). injection H as <-.
    exists qasm, mm. auto.
  - intros (qasm & mm & -> & -> & ->). reflexivity.
Qed.

Lemma submit_experiments_all (P : CircuitToString) (exps : list QobjExperiment)
  (number_of_shots : Z) (calls new : list ApiCall) :
  Forall2 (fun e call => _submit_experiment P e number_of_shots = Ok call) exps new ->
  submit_experiments P exps number_of_shots calls = ((calls ++ new)%list, Ok tt).
Proof.
  intros H. revert calls. induction H as [ | e call exps new He _ IH]; intros calls; simpl.
  - now rewrite app_nil_r.
  - rewrite He, IH, <- app_assoc. reflexivity.
Qed.

Lemma submit_experiments_fails (P : CircuitToString) (before after : list QobjExperiment)
  (x : QobjExperiment) (number_of_shots : Z) (calls new : list ApiCall) (e : exception) :
  Forall2 (fun e call => _submit_experiment P e number_of_shots = Ok call) before new ->
  _submit_experiment P x number_of_shots = Raise e ->
  submit_experiments P (before ++ x :: after) number_of_shots calls
  = ((calls ++ new)%list, Raise e).
Proof.
  intros H Hx. revert calls. induction H as [ | e0 call exps new He _ IH]; intros calls; simpl.
  - now rewrite Hx, app_nil_r.
  - rewrite He, IH, <- app_assoc. reflexivity.
Qed.

(** X10.  On a job that passes validation and whose experiments are all
    translated, [run] makes exactly these calls, in this order: one
    [create_project] with the name qi-sdk-project- followed by the identifier
    and the number of shots of the job, then one [execute_qasm_async] per
    experiment, in the order of the experiments, each with the number of shots
    of the job, the name of the experiment and its measurement map; the job
    returned carries the identifier of the project and the experiments. *)
Theorem run_submits_every_experiment (P : CircuitToString) (qobj : Qobj)
  (identifier project_id : string) (calls : list ApiCall) :
  __validate qobj = Ok tt ->
  Forall2 (submission_of P (shots (config qobj))) (experiments qobj) calls ->
  run P qobj identifier project_id
  = (create_project ("qi-sdk-project-" ++ identifier) (shots (config qobj)) :: calls,
     Ok {| qi_job_id := project_id; qi_experiments := experiments qobj |}).
Proof.
  intros Hv Hcalls. unfold run. rewrite Hv.
  rewrite (submit_experiments_all P _ _ _ calls); [reflexivity | ].
  eapply Forall2_impl; [ | exact Hcalls]. intros e call. apply submit_experiment_call.
Qed.

(** X11.  [run] does not undo what it has done: when the submission of an
    experiment raises, after validation has passed, the exception leaves
    [run], no job is returned, and the project has been created and the
    experiments before the failing one have been submitted; those after it are
    not. *)
Theorem run_keeps_earlier_submissions (P : CircuitToString) (qobj : Qobj)
  (identifier project_id : string) (before after : list QobjExperiment)
  (x : QobjExperiment) (calls : list ApiCall) (e : exception) :
  __validate qobj = Ok tt ->
  experiments qobj = (before ++ x :: after)%list ->
  Forall2 (submission_of P (shots (config qobj))) before calls ->
  _submit_experiment P x (shots (config qobj)) = Raise e ->
  run P qobj identifier project_id
  = (create_project ("qi-sdk-project-" ++ identifier) (shots (config qobj)) :: calls,
     Raise e).
Proof.
  intros Hv Hexps Hcalls Hx. unfold run. rewrite Hv, Hexps.
  rewrite (submit_experiments_fails P _ _ _ _ _ calls e); [reflexivity | | exact Hx].
  eapply Forall2_impl; [ | exact Hcalls]. intros e0 call. apply submit_experiment_call.
Qed.

Lemma entangle_submission : submission_of sample_parser 1024 entangle entangle_call.
Proof. eexists. eexists. repeat split. Qed.

Lemma run_submits_every_experiment_witness :
  run sample_parser {| config := {| shots := 1024 |}; experiments := [entangle] |} "uuid" "7"
  = (create_project ("qi-sdk-project-" ++ "uuid") 1024 :: [entangle_call],
     Ok {| qi_job_id := "7"; qi_experiments := [entangle] |}).
Proof.
  apply (run_submits_every_experiment sample_parser
           {| config := {| shots := 1024 |}; experiments := [entangle] |} "uuid" "7"
           [entangle_call]).
  - reflexivity.
  - constructor; [exact entangle_submission | constructor].
Defined.

Lemma run_keeps_earlier_submissions_witness :
  run sample_parser entangle_then_unknown "uuid" "7"
  = (create_project ("qi-sdk-project-" ++ "uuid") (shots (config entangle_then_unknown))
       :: [entangle_call],
     Raise (AttributeError "_bla")).
Proof.
  apply (run_keeps_earlier_submissions sample_parser entangle_then_unknown "uuid" "7"
           [entangle] [] unknown_gate [entangle_call]).
  - reflexivity.
  - reflexivity.
  - constructor; [exact entangle_submission | constructor].
  - reflexivity.
Defined.

(** ** The order of the checks of the validation *)

Lemma validate_experiments_first_invalid (before after : list QobjExperiment)
  (x : QobjExperiment) :
  Forall (fun experiment => have_qubits (instructions experiment)) before ->
  Forall valid_experiment before ->
  for_each (fun (_ : unit) experiment =>
              _ <- __validate_number_of_clbits experiment ;;
              __validate_no_gates_after_measure experiment) (before ++ x :: after) tt
  = (_ <- __validate_number_of_clbits x ;; _ <- __validate_no_gates_after_measure x ;;
     for_each (fun (_ : unit) experiment =>
                 _ <- __validate_number_of_clbits experiment ;;
                 __validate_no_gates_after_measure experiment) after tt).
Proof.
  intros Hqubits Hvalid. rewrite for_each_app.
  pose proof (validate_experiments_spec before Hqubits) as Hbefore.
  match type of Hbefore with match ?r with _ => _ end => destruct r as [[] | e] end.
  - cbn [bind for_each].
    destruct (__validate_number_of_clbits x) as [[] | e]; cbn [bind]; [ | reflexivity].
    destruct (__validate_no_gates_after_measure x) as [[] | e]; reflexivity.
  - exfalso. destruct Hbefore as (y & Hin & Herr). rewrite Forall_forall in Hvalid.
    destruct (Hvalid y Hin) as [Hslots Hgate].
    destruct Herr as [[Hlt _] | [Hg _]]; [lia | contradiction].
Qed.

(** X12.  The checks of [__validate] are made in a fixed order, and the
    first one that fails decides the message: a number of shots below 1 is
    reported whatever the experiments are; otherwise, the instructions of the
    experiments that are checked having qubits, the first experiment that is
    not valid is reported, by its number of classical bits when that is below
    1, and only else by its operation after a measurement. *)
Theorem validate_reports_first_failure (job : Qobj) :
  (shots (config job) < 1 ->
   __validate job = Raise (QisKitBackendError (invalid_shots_message (shots (config job)))))
  /\ (forall before x after,
         1 <= shots (config job) ->
         experiments job = (before ++ x :: after)%list ->
         Forall (fun experiment => have_qubits (instructions experiment)) before ->
         Forall valid_experiment before ->
         (memory_slots (header x) < 1 ->
          __validate job
          = Raise (QisKitBackendError (invalid_clbits_message (memory_slots (header x)))))
         /\ (1 <= memory_slots (header x) ->
             have_qubits (instructions x) ->
             gate_after_measure x ->
             __validate job = Raise (QisKitBackendError operation_after_measurement))).
Proof.
  split.
  - intros Hlt. unfold __validate, __validate_number_of_shots.
    destruct (Z.ltb_spec (shots (config job)) 1); [reflexivity | lia].
  - intros before x after Hshots Hexps Hqubits Hvalid.
    assert (__validate job
            = (_ <- __validate_number_of_clbits x ;;
               _ <- __validate_no_gates_after_measure x ;;
               for_each (fun (_ : unit) experiment =>
                           _ <- __validate_number_of_clbits experiment ;;
                           __validate_no_gates_after_measure experiment) after tt)) as ->.
    { unfold __validate, __validate_number_of_shots.
      destruct (Z.ltb_spec (shots (config job)) 1); [lia | ]. cbn [bind].
      rewrite Hexps. now apply validate_experiments_first_invalid. }
    unfold __validate_number_of_clbits. split.
    + intros Hlt. destruct (Z.ltb_spec (memory_slots (header x)) 1); [reflexivity | lia].
    + intros Hge Hx_qubits Hgate.
      destruct (Z.ltb_spec (memory_slots (header x)) 1); [lia | ].
      cbn [bind]. pose proof (validate_no_gates_after_measure_spec x Hx_qubits) as Hx.
      destruct (__validate_no_gates_after_measure x) as [[] | e].
      * contradiction.
      * destruct Hx as [-> _]. reflexivity.
Qed.

(** ** Circuits that measure at the end *)

Lemma check_gates_before_measurement (gates : list Instruction) :
  have_qubits gates ->
  Forall (fun i => name i <> "measure") gates ->
  for_each check_instruction gates [] = Ok [].
Proof.
  intros Hqubits. induction 1 as [ | g gates Hg _ IH]; simpl; [reflexivity | ].
  inversion Hqubits as [ | ? ? Hq Hqubits']; subst.
  destruct (check_gate [] g Hq Hg) as [[-> _] | [_ (q & _ & [])]]. now apply IH.
Qed.

Lemma check_measures (measures : list Instruction) (measured : list Z) :
  have_qubits measures ->
  Forall (fun i => name i = "measure") measures ->
  for_each check_instruction measures measured
  = Ok (measured ++ flat_map qubits measures)%list.
Proof.
  intros Hqubits H. revert measured.
  induction H as [ | m measures Hm _ IH]; intros measured; simpl.
  - now rewrite app_nil_r.
  - inversion Hqubits as [ | ? ? Hq Hqubits']; subst.
    rewrite (check_measure _ _ Hq Hm). simpl. rewrite (IH Hqubits'), <- app_assoc.
    reflexivity.
Qed.

(** X13.  A circuit that measures only at its end passes the check on
    operations after a measurement: when the instructions all have qubits and
    are gates, none of them named measure, followed by [measure] instructions
    only, [__validate_no_gates_after_measure] accepts the experiment, whatever
    the qubits are, also when a qubit is measured more than once. *)
Theorem measurements_at_the_end_are_accepted (experiment : QobjExperiment)
  (gates measures : list Instruction) :
  instructions experiment = (gates ++ measures)%list ->
  have_qubits (instructions experiment) ->
  Forall (fun i => name i <> "measure") gates ->
  Forall (fun i => name i = "measure") measures ->
  __validate_no_gates_after_measure experiment = Ok tt.
Proof.
  intros Hinstrs Hqubits Hgates Hmeasures. unfold __validate_no_gates_after_measure.
  rewrite Hinstrs in *. apply Forall_app in Hqubits as [Hg Hm].
  rewrite for_each_app, (check_gates_before_measurement gates Hg Hgates).
  cbn [bind]. now rewrite (check_measures measures [] Hm Hmeasures).
Qed.

Lemma measurements_at_the_end_are_accepted_witness :
  __validate_no_gates_after_measure entangle = Ok tt.
Proof.
  apply (measurements_at_the_end_are_accepted entangle
           [gate "h" [0]; gate "cx" [0; 1]] [measure 0 0; measure 1 1]).
  - reflexivity.
  - repeat constructor; discriminate.
  - repeat constructor; discriminate.
  - repeat constructor.
Defined.

(** ** Measure instructions without operand *)

Lemma comprehension_app {A B : Type} (f : A -> result B) (xs ys : list A) :
  comprehension f (xs ++ ys)
  = (xs' <- comprehension f xs ;; ys' <- comprehension f ys ;; Ok (xs' ++ ys')%list).
Proof.
  induction xs as [ | x xs IH]; simpl.
  - destruct (comprehension f ys); reflexivity.
  - destruct (f x) as [y | e]; simpl; [ | reflexivity].
    rewrite IH. destruct (comprehension f xs) as [xs' | e]; simpl; [ | reflexivity].
    destruct (comprehension f ys); reflexivity.
Qed.

(** X14.  A [measure] instruction without qubit or without classical bit
    makes [_collect_measurements] raise, when the [measure] instructions
    before it have both, and no measurement map is returned: it raises
    [IndexError] on an empty list of qubits or of classical bits, and
    [AttributeError] when the instruction has no attribute [qubits] at all. *)
Theorem collect_measurements_needs_operands (e : QobjExperiment)
  (before after : list Instruction) (m : Instruction) :
  filter is_measure (instructions e) = (before ++ m :: after)%list ->
  (forall x, In x before -> qubits x <> [] /\ memory x <> []) ->
  qubits m = [] \/ memory m = [] ->
  _collect_measurements e
  = Raise (match qubits_attribute m with
           | Some _ => IndexError
           | None => AttributeError "qubits"
           end).
Proof.
  intros Hmeasures Hbefore Hm. unfold _collect_measurements.
  rewrite Hmeasures, comprehension_app.
  rewrite (comprehension_measurements _ _ before Hbefore). cbn [bind comprehension].
  assert (measurement_of (n_qubits (header e)) (memory_slots (header e)) m
          = Raise (match qubits_attribute m with
                   | Some _ => IndexError
                   | None => AttributeError "qubits"
                   end)) as ->.
  { unfold measurement_of, getattr_qubits. unfold qubits in Hm.
    destruct (qubits_attribute m) as [m_qubits | ]; cbn [bind]; [ | reflexivity].
    destruct Hm as [-> | Hmem]; [reflexivity | ].
    destruct (py_getitem m_qubits 0) as [q | ex] eqn:Hq; cbn [bind].
    - now rewrite Hmem.
    - apply py_getitem_raises in Hq. now subst. }
  reflexivity.
Qed.

Lemma collect_measurements_needs_operands_witness :
  _collect_measurements
    {| header := sample_header 2;
       instructions :=
         [measure 0 0;
          {| name := "measure"; qubits_attribute := Some [1]; memory := []; params := [];
             conditional := None |}] |}
  = Raise IndexError.
Proof.
  apply (collect_measurements_needs_operands _ [measure 0 0] []
           {| name := "measure"; qubits_attribute := Some [1]; memory := []; params := [];
              conditional := None |}).
  - reflexivity.
  - intros x [<- | []]. split; discriminate.
  - now right.
Defined.

(** ** The text of the first instructions *)

(** X15.  The text of a translation grows with the instructions: when
    [_generate_cqasm] returns a text for an experiment, it returns one for the
    experiment cut after any number of its first instructions, and the text of
    the whole experiment starts with the text of the cut one. *)
Theorem generate_cqasm_extends (P : CircuitToString) (e cut : QobjExperiment)
  (more : list Instruction) (text : string) :
  header cut = header e ->
  instructions e = (instructions cut ++ more)%list ->
  _generate_cqasm P e = Ok text ->
  exists text' rest, _generate_cqasm P cut = Ok text' /\ text = text' ++ rest.
Proof.
  intros Hheader Hinstrs H. unfold _generate_cqasm in *.
  rewrite Hheader. rewrite Hinstrs, for_each_app in H.
  destruct (for_each (write_instruction P) (instructions cut) _) as [[parser stream] | ex];
    [ | discriminate].
  cbn [bind] in H. rewrite write_instructions_statements in H.
  destruct (statements P parser more) as [[parser' lines] | ex]; [ | discriminate].
  cbn [bind] in H. injection H as <-.
  exists stream, (join lines). split; reflexivity.
Qed.

Lemma generate_cqasm_extends_witness :
  exists text' rest,
    _generate_cqasm sample_parser
      {| header := sample_header 2; instructions := [gate "h" [0]] |} = Ok text'
    /\ ("version 1.0" ++ nl
        ++ "# cQASM generated by QI backend for Qiskit" ++ nl
        ++ "qubits 2" ++ nl
        ++ "H q[0]" ++ nl
        ++ "CNOT q[0], q[1]" ++ nl)
       = text' ++ rest.
Proof.
  apply (generate_cqasm_extends sample_parser entangle
           {| header := sample_header 2; instructions := [gate "h" [0]] |}
           [gate "cx" [0; 1]; measure 0 0; measure 1 1]).
  - reflexivity.
  - reflexivity.
  - reflexivity.
Defined.

(** ** From the submission to the memory data *)

Lemma identity_map_in_range (n : Z) :
  1 <= n ->
  measurements_in_range
    {| measurements := map (fun index => (index, index)) (range n);
       number_of_clbits := n |}
    (Z.to_nat n).
Proof.
  intros Hn. split; [exact Hn | ]. simpl. apply Forall_forall. intros [q c] Hin.
  apply in_map_iff in Hin as (i & [= <- <-] & Hi). apply In_range in Hi. simpl. lia.
Qed.

Lemma append_shot_identity (n : Z) (raw_data : list N) (memory_data : list string) :
  1 <= n ->
  Forall (fun k => k < 2 ^ Z.to_N n)%N raw_data ->
  for_each (append_shot
              {| measurements := map (fun index => (index, index)) (range n);
                 number_of_clbits := n |}
              (Z.to_nat n)) raw_data memory_data
  = Ok (memory_data ++ map hex raw_data)%list.
Proof.
  intros Hn Hraw. revert memory_data.
  induction Hraw as [ | k raw Hk _ IH]; intros md; simpl.
  - now rewrite app_nil_r.
  - unfold append_shot at 1.
    rewrite (identity_map_projection n n k) by (try exact Hk; lia).
    cbn [bind]. rewrite IH, <- app_assoc.
    replace (n - n) with 0 by lia. simpl. now rewrite N.mul_1_r.
Qed.

(** X16.  From [run] to the result: for an experiment without [measure]
    instruction on as many classical bits as qubits, the user data stored by
    [_submit_experiment] makes [get_experiment_results] return, for a result
    with raw data, the registers of the shots themselves: the memory data is
    the raw data printed in hexadecimal, shot by shot, and no random number is
    drawn. *)
Theorem full_state_memory_is_raw_data (order : AttributeOrder)
  (P : CircuitToString) (e : QobjExperiment)
  (number_of_shots : Z) (compiled_qasm job_name : string) (user_data : UserData)
  (api : QuantumInspireApi) (res : Result) (job : Job) (rng : RandomState)
  (entry : N * float) (entries : list (N * float)) :
  _submit_experiment P e number_of_shots
  = Ok (execute_qasm_async compiled_qasm number_of_shots job_name user_data) ->
  job_user_data job = user_data ->
  filter is_measure (instructions e) = [] ->
  n_qubits (header e) = memory_slots (header e) ->
  1 <= n_qubits (header e) ->
  number_of_qubits res = Z.to_nat (n_qubits (header e)) ->
  histogram res = Some (entry :: entries) ->
  get_raw_data api (format_d (result_id res)) <> [] ->
  Forall (fun k => k < 2 ^ Z.to_N (n_qubits (header e)))%N
         (get_raw_data api (format_d (result_id res))) ->
  exists er,
    experiment_result order api res job rng = Ok (er, rng)
    /\ memory_data_of (er_data er) = map hex (get_raw_data api (format_d (result_id res))).
Proof.
  intros Hsubmit Hjob Hnone Heq Hn Hnq Hh Hraw Hbelow.
  apply submit_experiment_call in Hsubmit as (qasm & mm & _ & Hmm & Hcall).
  injection Hcall as _ _ Hud. subst user_data.
  rewrite (collect_measurements_identity e Hnone) in Hmm. injection Hmm as <-.
  rewrite <- Heq in *.
  set (n := n_qubits (header e)) in *.
  set (mm := {| measurements := map (fun index => (index, index)) (range n);
                number_of_clbits := n |}).
  destruct (convert_histogram_returns order res mm _ Hh) as [probs Hprobs].
  { rewrite Hnq. now apply identity_map_in_range. }
  unfold experiment_result. unfold histogram_is_empty. rewrite Hh, Hjob.
  cbn [ud_measurements]. fold mm. rewrite Hprobs.
  unfold __convert_result_data.
  destruct (get_raw_data api (format_d (result_id res))) as [ | k0 raw] eqn:Hdata;
    [congruence | ].
  rewrite Hnq. unfold mm at 1.
  rewrite (append_shot_identity n (k0 :: raw) [] Hn Hbelow). cbn [bind app].
  destruct (sorted_by_hex_key_returns
              (fold_left (fun d '(elem, count) => dict_set d elem count)
                         (Counter (map hex (k0 :: raw))) [])) as [sorted Hsorted].
  { apply fold_dict_set_good_keys; [ | apply good_keys_nil].
    apply Counter_good_keys. apply Forall_forall. intros key Hin.
    apply in_map_iff in Hin as (k & <- & _). now exists k. }
  rewrite Hsorted. cbn [bind]. eexists. split; reflexivity.
Qed.

Lemma full_state_memory_is_raw_data_witness :
  exists er,
    experiment_result dictionary_order bell_api bell_result bell_job (constant_rng 0.25%float)
    = Ok (er, constant_rng 0.25%float)
    /\ memory_data_of (er_data er)
       = map hex (get_raw_data bell_api (format_d (result_id bell_result))).
Proof.
  eapply (full_state_memory_is_raw_data dictionary_order sample_parser
            {| header := sample_header 2; instructions := [gate "h" [0]] |}
            3 _ "circuit0" (job_user_data bell_job) bell_api bell_result bell_job
            (constant_rng 0.25%float) (0%N, 0.5%float) [(3%N, 0.5%float)]).
  - reflexivity.
  - reflexivity.
  - reflexivity.
  - reflexivity.
  - simpl. lia.
  - reflexivity.
  - reflexivity.
  - discriminate.
  - repeat constructor.
Defined.

(** ** When the results of a job are returned *)

Lemma append_shot_returns (m : Measurements) (nq : nat) (raw_data : list N)
  (memory_data : list string) :
  measurements_in_range m nq ->
  exists memory_data', for_each (append_shot m nq) raw_data memory_data = Ok memory_data'.
Proof.
  intros Hm. revert memory_data.
  induction raw_data as [ | k raw IH]; intros md; simpl; [eauto | ].
  unfold append_shot at 1.
  destruct (qubit_to_classical_hex_returns k m nq Hm) as [key ->]. cbn [bind]. apply IH.
Qed.

Lemma single_shot_loop_returns (prob : float) (m : Measurements) (nq : nat) (sum : float)
  (h : list (N * float)) :
  measurements_in_range m nq ->
  exists histogram_data memory_data,
    single_shot_loop prob m nq sum h = Ok (histogram_data, memory_data).
Proof.
  intros Hm. revert sum. induction h as [ | [k p] h IH]; intros sum; simpl; [eauto | ].
  destruct (prob <? sum + p)%float; [ | apply IH].
  destruct (qubit_to_classical_hex_returns k m nq Hm) as [key ->]. cbn [bind]. eauto.
Qed.

Lemma convert_result_data_returns (order : AttributeOrder) (api : QuantumInspireApi) (res : Result)
  (m : Measurements) (rng : RandomState) (h : list (N * float)) :
  histogram res = Some h ->
  measurements_in_range m (number_of_qubits res) ->
  exists counts memory_data rng',
    __convert_result_data order api res m rng = Ok (counts, memory_data, rng').
Proof.
  intros Hh Hm. unfold __convert_result_data.
  destruct (get_raw_data api (format_d (result_id res))) as [ | k0 raw].
  - unfold getitem_histogram. rewrite Hh. cbn [bind np_random_rand].
    destruct (single_shot_loop_returns (draws rng (drawn rng)) m (number_of_qubits res)
                0 h Hm) as (hd & md & Hloop).
    rewrite Hloop. cbn [bind].
    destruct (sorted_by_hex_key_returns hd) as [sorted ->].
    + exact (proj2 (single_shot_loop_good_keys _ _ _ _ _ _ _ Hloop)).
    + cbn [bind]. eauto.
  - destruct (append_shot_returns m (number_of_qubits res) (k0 :: raw) [] Hm)
      as [md Hloop].
    rewrite Hloop. cbn [bind].
    destruct (sorted_by_hex_key_returns
                (fold_left (fun d '(elem, count) => dict_set d elem count)
                           (Counter md) [])) as [sorted ->].
    + apply fold_dict_set_good_keys; [ | apply good_keys_nil].
      apply Counter_good_keys.
      exact (memory_data_is_hex _ _ _ _ _ (Forall_nil _) Hloop).
    + cbn [bind]. eauto.
Qed.

(** X17.  [get_experiment_results] returns one experiment result per job
    whenever every job of the project has a result with a histogram that is not
    empty and a measurement map whose positions are in range for the qubits of
    the result and its own classical bits: none of the conversions raises. *)
Theorem get_experiment_results_returns (order : AttributeOrder)
  (api : QuantumInspireApi) (job_id : string)
  (rng : RandomState) :
  (forall job,
      In job (get_jobs_from_project api job_id) ->
      (exists entry entries,
          histogram (get api (job_results job)) = Some (entry :: entries))
      /\ measurements_in_range (ud_measurements (job_user_data job))
           (number_of_qubits (get api (job_results job)))) ->
  exists ers rng',
    get_experiment_results order api job_id rng = Ok (ers, rng')
    /\ List.length ers = List.length (get_jobs_from_project api job_id).
Proof.
  unfold get_experiment_results. rewrite results_and_jobs_map.
  generalize (get_jobs_from_project api job_id) as jobs. intros jobs Hjobs.
  assert (forall done rng0,
             exists new rng',
               for_each (append_experiment_result order api)
                        (map (fun job => (get api (job_results job), job)) jobs)
                        (done, rng0)
               = Ok ((done ++ new)%list, rng')
               /\ List.length new = List.length jobs) as Hloop.
  { induction jobs as [ | job jobs IH]; intros done rng0; simpl.
    - exists [], rng0. now rewrite app_nil_r.
    - destruct (Hjobs job (or_introl eq_refl)) as [(entry & entries & Hh) Hm].
      unfold experiment_result, histogram_is_empty. rewrite Hh.
      destruct (convert_result_data_returns order api _ _ rng0 _ Hh Hm)
        as (counts & md & rng1 & ->).
      destruct (convert_histogram_returns order _ _ _ Hh Hm) as [probs ->].
      cbn [bind].
      destruct (IH (fun j Hj => Hjobs j (or_intror Hj))
                  (done ++ [{| er_name := job_name job; er_seed := 42;
                               er_shots := job_number_of_shots job;
                               er_data := {| counts := counts; probabilities := probs;
                                             memory_data_of := md |};
                               er_status := "DONE"; er_success := true;
                               er_time_taken :=
                                 execution_time_in_seconds (get api (job_results job));
                               er_header :=
                                 {| rh_name := ud_name (job_user_data job);
                                    rh_memory_slots := ud_memory_slots (job_user_data job);
                                    rh_creg_sizes := ud_creg_sizes (job_user_data job) |} |}])%list
                  rng1) as (new & rng' & -> & Hlen).
      eexists (_ :: new), rng'. rewrite <- app_assoc. split; [reflexivity | ].
      simpl. now rewrite Hlen. }
  destruct (Hloop [] rng) as (new & rng' & -> & Hlen).
  exists new, rng'. split; [reflexivity | exact Hlen].
Qed.

Lemma get_experiment_results_returns_witness :
  exists ers rng',
    get_experiment_results dictionary_order single_shot_api "1" (constant_rng 0.25%float)
    = Ok (ers, rng')
    /\ List.length ers = List.length (get_jobs_from_project single_shot_api "1").
Proof.
  apply (get_experiment_results_returns dictionary_order single_shot_api "1"
           (constant_rng 0.25%float)).
  intros job [<- | []]. split.
  - eexists. eexists. reflexivity.
  - exact identity_map_2_in_range.
Defined.

Lemma measured_qubits_reach_their_clbits_witness :
  exists mm v,
    _collect_measurements entangle = Ok mm
    /\ __qubit_to_classical_hex 2 mm (Z.to_nat (n_qubits (header entangle))) = Ok (hex v)
    /\ (v < 2 ^ Z.to_N (memory_slots (header entangle)))%N
    /\ (forall m, In m (filter is_measure (instructions entangle)) ->
                  N.testbit v (Z.to_N (hd 0 (memory m)))
                  = N.testbit 2 (Z.to_N (hd 0 (qubits m))))
    /\ (forall c, 0 <= c < memory_slots (header entangle) ->
                  (forall m, In m (filter is_measure (instructions entangle)) ->
                             hd 0 (memory m) <> c) ->
                  N.testbit v (Z.to_N c) = false).
Proof.
  apply (measured_qubits_reach_their_clbits entangle 2).
  - discriminate.
  - intros m [<- | [<- | []]]; simpl; repeat split; try discriminate; lia.
  - simpl. repeat constructor; simpl; intuition lia.
  - reflexivity.
Defined.

(** ** The map of an experiment is in range *)

Lemma comprehension_Forall2 {A B : Type} (f : A -> result B) (xs : list A) (ys : list B) :
  comprehension f xs = Ok ys -> Forall2 (fun x y => f x = Ok y) xs ys.
Proof.
  revert ys. induction xs as [ | x xs IH]; simpl; intros ys H.
  - injection H as <-. constructor.
  - apply bind_Ok in H as (y & Hy & H). apply bind_Ok in H as (ys' & Hys & H).
    injection H as <-. constructor; [exact Hy | now apply IH].
Qed.

Lemma py_getitem_first_inv {A : Type} (l : list A) (x d : A) :
  py_getitem l 0 = Ok x -> hd d l = x.
Proof.
  destruct l as [ | y l]; [discriminate | ].
  rewrite (py_getitem_first (y :: l) d) by discriminate. now intros [= ->].
Qed.

Lemma Forall2_In_right {A B : Type} (R : A -> B -> Prop) (xs : list A) (ys : list B)
  (y : B) :
  Forall2 R xs ys -> In y ys -> exists x, In x xs /\ R x y.
Proof.
  induction 1 as [ | x0 y0 xs ys Hxy _ IH]; intros Hin; [contradiction | ].
  destruct Hin as [<- | Hin].
  - exists x0. split; [now left | exact Hxy].
  - destruct (IH Hin) as (x & Hx & HR). exists x. split; [now right | exact HR].
Qed.

(** X18.  The map [_collect_measurements] returns can be used on the
    results: when the experiment declares at least one classical bit, its
    [measure] instructions measure qubits below [n_qubits] into classical bits
    below [memory_slots] and, without any [measure] instruction, it has no more
    qubits than classical bits, every position of the returned map is in range,
    so that [__qubit_to_classical_hex] returns on every register. *)
Theorem collected_map_is_in_range (e : QobjExperiment) (mm : Measurements) :
  let nq := n_qubits (header e) in
  let nc := memory_slots (header e) in
  let measures := filter is_measure (instructions e) in
  _collect_measurements e = Ok mm ->
  1 <= nc ->
  (forall m, In m measures -> 0 <= hd 0 (qubits m) < nq /\ 0 <= hd 0 (memory m) < nc) ->
  (measures = [] -> nq <= nc) ->
  measurements_in_range mm (Z.to_nat nq)
  /\ forall k, exists key, __qubit_to_classical_hex k mm (Z.to_nat nq) = Ok key.
Proof.
  intros nq nc measures Hcollect Hnc Hwf Hnone.
  assert (measurements_in_range mm (Z.to_nat nq)) as Hrange.
  { unfold _collect_measurements in Hcollect. fold nq nc measures in Hcollect.
    apply bind_Ok in Hcollect as (pairs & Hpairs & Hcollect). injection Hcollect as <-.
    split; [exact Hnc | ]. cbn [measurements number_of_clbits].
    apply comprehension_Forall2 in Hpairs.
    destruct pairs as [ | pair pairs].
    - assert (measures = []) as Hm by (now inversion Hpairs).
      specialize (Hnone Hm). apply Forall_forall. intros [q c] Hin.
      apply in_map_iff in Hin as (i & [= <- <-] & Hi). apply In_range in Hi. simpl. lia.
    - apply Forall_forall. intros [q c] Hin.
      destruct (Forall2_In_right _ _ _ _ Hpairs Hin) as (m & Hm & Hpair).
      unfold measurement_of in Hpair.
      apply bind_Ok in Hpair as (m_qubits & Hattribute & Hpair).
      apply getattr_qubits_Ok in Hattribute. subst m_qubits.
      apply bind_Ok in Hpair as (qubit & Hq & Hpair).
      apply bind_Ok in Hpair as (clbit & Hc & Hpair). injection Hpair as <- <-.
      apply (py_getitem_first_inv _ _ 0) in Hq, Hc. subst qubit clbit.
      destruct (Hwf m Hm) as [Hqr Hcr]. simpl. lia. }
  split; [exact Hrange | ].
  intros k. now apply qubit_to_classical_hex_returns.
Qed.

Lemma collected_map_is_in_range_witness :
  measurements_in_range
    {| measurements := [(1, 1); (0, 0)]; number_of_clbits := 2 |}
    (Z.to_nat (n_qubits (header entangle)))
  /\ forall k,
       exists key,
         __qubit_to_classical_hex k
           {| measurements := [(1, 1); (0, 0)]; number_of_clbits := 2 |}
           (Z.to_nat (n_qubits (header entangle))) = Ok key.
Proof.
  apply (collected_map_is_in_range entangle
           {| measurements := [(1, 1); (0, 0)]; number_of_clbits := 2 |}).
  - reflexivity.
  - simpl. lia.
  - intros m [<- | [<- | []]]; simpl; lia.
  - discriminate.
Defined.
